(** * Master schedule and operation-pattern generators

    A shallow embedding of [src/generators/schedule.py] ([generate_schedule])
    and [src/generators/patterns.py] ([generate_patterns],
    [_is_proper_multiset_subset], [remove_subpatterns]).

    Modelling choices:
    - Python floats are modelled by exact rationals [Q].
    - Surgeon, Room and Weekday are [int] in [type_aliases.py]: [Z] here;
      an OperationCard is a [str]: [string]; a Pattern is a tuple of cards.
    - A Python [dict] is an association list with the dict's semantics:
      assignment to an existing key updates it in place, assignment to a new
      key appends it, so iteration order is insertion order.
    - The numpy [Generator] is an abstract state machine: a record of the
      four draws the code makes ([dirichlet], [random], [choice],
      [lognormal]) over an arbitrary state type.  A draw the library rejects
      (invalid [alpha], [p] or [sigma]) returns [None]: numpy raises
      [ValueError] there.
    - The [while] loop of the random walk is run with fuel; running out of
      fuel ([OutOfFuel]) stands for a loop that has not stopped.
    - Python's iteration order of a [set] depends on string hashing, which
      changes between interpreter runs; it is a parameter ([iter_set]) of
      [remove_subpatterns]. *)

From Stdlib Require Import List String ZArith QArith Lia Lqa Bool Permutation Sorted.
Import ListNotations.

Open Scope Q_scope.

(** ** Identifiers (type_aliases.py) *)

Definition Surgeon := Z.
Definition Room := Z.
Definition Weekday := Z.
Definition OperationCard := string.
Definition Pattern := list OperationCard.

(** ** Decidable equality on dictionary keys *)

Class EqDec (A : Type) := eq_dec : forall x y : A, {x = y} + {x <> y}.

#[global] Instance EqDec_Z : EqDec Z := Z.eq_dec.
#[global] Instance EqDec_string : EqDec string := string_dec.
#[global] Instance EqDec_nat : EqDec nat := Nat.eq_dec.
#[global] Instance EqDec_prod {A B} `{EqDec A} `{EqDec B} : EqDec (A * B).
Proof. intros [a b] [c d]; destruct (eq_dec a c), (eq_dec b d); subst;
  [left; reflexivity | right; congruence ..]. Defined.
#[global] Instance EqDec_list {A} `{EqDec A} : EqDec (list A) := list_eq_dec eq_dec.

(** ** Python dicts as insertion-ordered association lists *)

Section Dict.
Context {K V : Type} `{EqDec K}.

(** [d.get(k)] *)
Fixpoint dict_get (d : list (K * V)) (k : K) : option V :=
  match d with
  | [] => None
  | (k', v) :: d' => if eq_dec k k' then Some v else dict_get d' k
  end.

(** [d[k] = v] *)
Fixpoint dict_set (d : list (K * V)) (k : K) (v : V) : list (K * V) :=
  match d with
  | [] => [(k, v)]
  | (k', v') :: d' =>
      if eq_dec k k' then (k', v) :: d' else (k', v') :: dict_set d' k v
  end.

(** [d.get(k, default)] *)
Definition dict_get_default (d : list (K * V)) (k : K) (dflt : V) : V :=
  match dict_get d k with Some v => v | None => dflt end.
End Dict.

(** ** Exceptions and the state/error monad *)

Inductive error := ValueError | KeyError | IndexError | ZeroDivisionError.

Inductive result (A : Type) :=
| Ok (a : A)
| Raise (e : error)
| OutOfFuel.
Arguments Ok {A} a.
Arguments Raise {A} e.
Arguments OutOfFuel {A}.

Definition M (S A : Type) := S -> result (A * S).

Definition ret {S A} (a : A) : M S A := fun s => Ok (a, s).

Definition bind {S A B} (m : M S A) (k : A -> M S B) : M S B :=
  fun s =>
    match m s with
    | Ok (a, s') => k a s'
    | Raise e => Raise e
    | OutOfFuel => OutOfFuel
    end.

Definition raise {S A} (e : error) : M S A := fun _ => Raise e.

Notation "x <- m ;; k" := (bind m (fun x => k))
  (at level 61, m at next level, right associativity).

(** ** The numpy random generator *)

Record Generator (S : Type) := mkGenerator {
  (** [rng.dirichlet(alpha)] *)
  dirichlet : S -> list Q -> option (list Q * S);
  (** [rng.random(n)] *)
  random : S -> nat -> list Q * S;
  (** [rng.choice(a, p=p, size=1)[0]], as the drawn index into [a] *)
  choice : S -> list Q -> option (nat * S);
  (** [rng.lognormal(mean, sigma)] *)
  lognormal : S -> Q -> Q -> option (Q * S)
}.
Arguments dirichlet {S} g s alpha.
Arguments random {S} g s n.
Arguments choice {S} g s p.
Arguments lognormal {S} g s m sd.

Section Draws.
Context {S : Type} (g : Generator S).

Definition rng_dirichlet (alpha : list Q) : M S (list Q) :=
  fun s => match dirichlet g s alpha with
           | Some (w, s') => Ok (w, s')
           | None => Raise ValueError
           end.

Definition rng_random (n : nat) : M S (list Q) :=
  fun s => Ok (random g s n).

Definition rng_choice (p : list Q) : M S nat :=
  fun s => match choice g s p with
           | Some (i, s') => Ok (i, s')
           | None => Raise ValueError
           end.

Definition rng_lognormal (m sd : Q) : M S Q :=
  fun s => match lognormal g s m sd with
           | Some (x, s') => Ok (x, s')
           | None => Raise ValueError
           end.
End Draws.

(** ** Float helpers *)

Definition Qltb (x y : Q) : bool := negb (Qle_bool y x).

(** [sum(xs)] / [arr.sum()] *)
Definition Qsum (xs : list Q) : Q := fold_right Qplus 0 xs.

(** [np.argmax(xs)]: the first index of a maximum; numpy raises on an
    empty array. *)
Fixpoint argmax_from (xs : list Q) (i best : nat) (bv : Q) : nat :=
  match xs with
  | [] => best
  | x :: xs' => if Qltb bv x then argmax_from xs' (S i) i x
                else argmax_from xs' (S i) best bv
  end.

Definition argmax (xs : list Q) : option nat :=
  match xs with
  | [] => None
  | x :: xs' => Some (argmax_from xs' 1 0 x)
  end.

(** ** schedule.py *)

Definition Schedule := list ((Surgeon * Room * Weekday) * Q).
Definition FrequencyData := list ((OperationCard * Surgeon) * Q).

Record ScheduleParams := mkScheduleParams {
  base_concentration : Q;
  workload_scaling : Q;
  sparsity_threshold : Q
}.

(** Step 1: [surgeon_workloads[surgeon] = surgeon_workloads.get(surgeon, 0.0) + freq] *)
Definition surgeon_workloads (frequency_data : FrequencyData) : list (Surgeon * Q) :=
  fold_left
    (fun acc '((_, surgeon), freq) =>
       dict_set acc surgeon (dict_get_default acc surgeon 0 + freq))
    frequency_data [].

(** Step 2: [[(room, day) for day in weekdays for room in rooms]] *)
Definition room_day_pairs (rooms : list Room) (weekdays : list Weekday)
  : list (Room * Weekday) :=
  flat_map (fun day => map (fun room => (room, day)) rooms) weekdays.

(** [weights[weights < threshold] = 0.0] *)
Definition apply_threshold (threshold : Q) (weights : list Q) : list Q :=
  map (fun w => if Qltb w threshold then 0 else w) weights.

(** [weights = np.zeros(n); weights[i] = 1.0] *)
Definition one_hot (n i : nat) : list Q :=
  map (fun j => if Nat.eqb j i then 1 else 0) (seq 0 n).

Section GenerateSchedule.
Context {S : Type} (g : Generator S) (params : ScheduleParams).

(** The body of the surgeon loop up to the sparse store: concentration,
    Dirichlet draw, sparsity threshold and renormalisation or fallback. *)
Definition surgeon_weights (num_slots : nat) (workload : Q) : M S (list Q) :=
  let denom := 1 + workload_scaling params * workload in
  if Qeq_bool denom 0 then raise ZeroDivisionError else
  let concentration := base_concentration params / denom in
  weights <- rng_dirichlet g (repeat concentration num_slots) ;;
  if Qltb 0 (sparsity_threshold params) then
    let weights := apply_threshold (sparsity_threshold params) weights in
    let total := Qsum weights in
    if Qltb 0 total then ret (map (fun w => w / total) weights)
    else
      r <- rng_random g num_slots ;;
      match argmax r with
      | None => raise ValueError
      | Some max_idx =>
          if Nat.ltb max_idx num_slots then ret (one_hot num_slots max_idx)
          else raise IndexError
      end
  else ret weights.

(** [for (room, day), weight in zip(room_day_pairs, weights):
       if weight > 0: schedule[(surgeon, room, day)] = float(weight)] *)
Fixpoint store_weights (schedule : Schedule) (surgeon : Surgeon)
    (pw : list ((Room * Weekday) * Q)) : Schedule :=
  match pw with
  | [] => schedule
  | ((room, day), weight) :: pw' =>
      let schedule' :=
        if Qltb 0 weight then dict_set schedule (surgeon, room, day) weight
        else schedule in
      store_weights schedule' surgeon pw'
  end.

(** Step 3: [for surgeon in surgeons: ...] *)
Fixpoint schedule_loop (workloads : list (Surgeon * Q))
    (pairs : list (Room * Weekday)) (schedule : Schedule) : M S Schedule :=
  match workloads with
  | [] => ret schedule
  | (surgeon, workload) :: rest =>
      weights <- surgeon_weights (List.length pairs) workload ;;
      schedule_loop rest pairs
        (store_weights schedule surgeon (combine pairs weights))
  end.

Definition generate_schedule (frequency_data : FrequencyData)
    (rooms : list Room) (weekdays : list Weekday) : M S Schedule :=
  let workloads := surgeon_workloads frequency_data in
  let pairs := room_day_pairs rooms weekdays in
  if Nat.eqb (List.length pairs) 0 then raise ValueError
  else schedule_loop workloads pairs [].
End GenerateSchedule.

(** ** patterns.py: [generate_patterns] *)

(** Modelled from the spec: [PatternParams] is imported by
    [patterns.py] from [params.py] but is not defined there; its two fields
    are the ones [generate_patterns] reads, as the spec describes them
    ([max_minutes_per_day], [num_patterns_per_room_day]). *)
Record PatternParams := mkPatternParams {
  max_minutes_per_day : Q;
  num_patterns_per_room_day : nat
}.

Definition DurationDistributions := list (OperationCard * (Q * Q)).
Definition PatternData := list ((Weekday * Room) * list Pattern).

(** [surgeon_card_weights[surgeon][card] += freq] *)
Definition surgeon_card_weights_of (frequency_data : FrequencyData)
  : list (Surgeon * list (OperationCard * Q)) :=
  fold_left
    (fun acc '((card, surgeon), freq) =>
       let card_dict := dict_get_default acc surgeon [] in
       dict_set acc surgeon
         (dict_set card_dict card (dict_get_default card_dict card 0 + freq)))
    frequency_data [].

(** [if total > 0: for card in card_dict: card_dict[card] /= total] *)
Definition normalize_card_weights (scw : list (Surgeon * list (OperationCard * Q)))
  : list (Surgeon * list (OperationCard * Q)) :=
  map (fun '(surgeon, card_dict) =>
         let total := Qsum (map snd card_dict) in
         (surgeon,
          if Qltb 0 total then map (fun '(card, w) => (card, w / total)) card_dict
          else card_dict))
    scw.

(** [room_day_to_surgeons[(day, room)].append((surgeon, score))] *)
Definition room_day_to_surgeons_of (schedule : Schedule)
  : list ((Weekday * Room) * list (Surgeon * Q)) :=
  fold_left
    (fun acc '((surgeon, room, day), score) =>
       dict_set acc (day, room) (dict_get_default acc (day, room) [] ++ [(surgeon, score)]))
    schedule [].

(** [raw_scores = {s: sc for s, sc in surgeon_list}] *)
Definition raw_scores_of (surgeon_list : list (Surgeon * Q)) : list (Surgeon * Q) :=
  fold_left (fun acc '(s, sc) => dict_set acc s sc) surgeon_list [].

(** The normalised scores within one (room, day). *)
Definition normalized_scores_of (raw_scores : list (Surgeon * Q)) : list (Surgeon * Q) :=
  let total_score := Qsum (map snd raw_scores) in
  if Qeq_bool total_score 0 then
    map (fun '(s, _) => (s, 1 / inject_Z (Z.of_nat (List.length raw_scores)))) raw_scores
  else map (fun '(s, sc) => (s, sc / total_score)) raw_scores.

(** [combined_card_weights[card] += norm_weight * weight] over the surgeons. *)
Definition combined_card_weights_of
    (scw : list (Surgeon * list (OperationCard * Q)))
    (normalized_scores : list (Surgeon * Q)) : list (OperationCard * Q) :=
  fold_left
    (fun combined '(surgeon, norm_weight) =>
       fold_left
         (fun combined '(card, weight) =>
            dict_set combined card (dict_get_default combined card 0 + norm_weight * weight))
         (dict_get_default scw surgeon []) combined)
    normalized_scores [].

Section GeneratePatterns.
Context {St : Type} (g : Generator St) (params : PatternParams)
  (duration_distributions : DurationDistributions).

(** The bounded random walk building one sequence:
    [while total_duration < params.max_minutes_per_day: ...].
    The state is [(sequence, total_duration)]. *)
Fixpoint walk (fuel : nat) (cards : list OperationCard) (weights : list Q)
    (sequence : Pattern) (total_duration : Q) : M St (Pattern * Q) :=
  match fuel with
  | O => fun _ => OutOfFuel
  | S fuel' =>
      if Qltb total_duration (max_minutes_per_day params) then
        i <- rng_choice g weights ;;
        match nth_error cards i with
        | None => raise ValueError
        | Some card =>
            match dict_get duration_distributions card with
            | None => raise KeyError
            | Some (mean_log, std_log) =>
                duration <- rng_lognormal g mean_log std_log ;;
                if Qltb (max_minutes_per_day params) (total_duration + duration)
                then ret (sequence, total_duration)
                else walk fuel' cards weights (sequence ++ [card])
                       (total_duration + duration)
            end
        end
      else ret (sequence, total_duration)
  end.

(** [for _ in range(params.num_patterns_per_room_day): ...;
       if sequence: pattern_data[(day, room)].append(tuple(sequence))] *)
Fixpoint sample_patterns (n fuel : nat) (cards : list OperationCard)
    (weights : list Q) (key : Weekday * Room) (pattern_data : PatternData)
    : M St PatternData :=
  match n with
  | O => ret pattern_data
  | S n' =>
      r <- walk fuel cards weights [] 0 ;;
      let sequence := fst r in
      let pattern_data' :=
        match sequence with
        | [] => pattern_data
        | _ :: _ => dict_set pattern_data key
                      (dict_get_default pattern_data key [] ++ [sequence])
        end in
      sample_patterns n' fuel cards weights key pattern_data'
  end.

(** The body of [for (day, room), surgeon_list in room_day_to_surgeons.items()]. *)
Definition process_bucket (fuel : nat) (scw : list (Surgeon * list (OperationCard * Q)))
    (key : Weekday * Room) (surgeon_list : list (Surgeon * Q))
    (pattern_data : PatternData) : M St PatternData :=
  match surgeon_list with
  | [] => ret pattern_data
  | _ :: _ =>
      let normalized_scores := normalized_scores_of (raw_scores_of surgeon_list) in
      let combined := combined_card_weights_of scw normalized_scores in
      match combined with
      | [] => ret pattern_data
      | _ :: _ =>
          sample_patterns (num_patterns_per_room_day params) fuel
            (map fst combined) (map snd combined) key pattern_data
      end
  end.

Fixpoint buckets_loop (fuel : nat) (scw : list (Surgeon * list (OperationCard * Q)))
    (buckets : list ((Weekday * Room) * list (Surgeon * Q)))
    (pattern_data : PatternData) : M St PatternData :=
  match buckets with
  | [] => ret pattern_data
  | (key, surgeon_list) :: rest =>
      pd <- process_bucket fuel scw key surgeon_list pattern_data ;;
      buckets_loop fuel scw rest pd
  end.
End GeneratePatterns.

(** ** patterns.py: [_is_proper_multiset_subset] and [remove_subpatterns] *)

(** [collections.Counter(p)]: card -> count, in first-occurrence order. *)
Definition Counter := list (OperationCard * nat).

Definition counter_of (p : Pattern) : Counter :=
  fold_left (fun c card => dict_set c card (dict_get_default c card 0%nat + 1)%nat) p [].

(** [c[k]]: a Counter answers 0 for a missing key. *)
Definition counter_get (c : Counter) (k : OperationCard) : nat := dict_get_default c k 0%nat.

(** [sum(c.values())] *)
Definition counter_total (c : Counter) : nat := list_sum (map snd c).

(** [a == b] on Counters (Python 3.10+: missing elements count as zero). *)
Definition counter_eqb (a b : Counter) : bool :=
  forallb (fun k => Nat.eqb (counter_get a k) (counter_get b k)) (map fst a ++ map fst b).

Definition _is_proper_multiset_subset (a b : Counter) : bool :=
  if Nat.ltb (counter_total b) (counter_total a) then false
  else if existsb (fun k => Nat.ltb (counter_get b k) (counter_get a k)) (map fst a) then false
  else negb (counter_eqb a b).

(** [sorted(all_patterns, key=len)]: a stable insertion sort by length. *)
Fixpoint insert_by_len (p : Pattern) (l : list Pattern) : list Pattern :=
  match l with
  | [] => [p]
  | q :: l' => if Nat.ltb (List.length p) (List.length q) then p :: q :: l'
               else q :: insert_by_len p l'
  end.

Definition sort_by_len (l : list Pattern) : list Pattern :=
  fold_left (fun acc p => insert_by_len p acc) l [].

(** [sorted(...)] on the integer lengths. *)
Fixpoint insert_nat (n : nat) (l : list nat) : list nat :=
  match l with
  | [] => [n]
  | m :: l' => if Nat.leb n m then n :: m :: l' else m :: insert_nat n l'
  end.

Definition sort_nat (l : list nat) : list nat := fold_left (fun acc n => insert_nat n acc) l [].

(** [buckets_by_len[lengths[p]].append(p)] *)
Definition buckets_by_len_of (unique_sorted : list Pattern) : list (nat * list Pattern) :=
  fold_left
    (fun acc p => dict_set acc (List.length p)
                    (dict_get_default acc (List.length p) [] ++ [p]))
    unique_sorted [].

(** [for L in reversed(sorted_lengths):
       running = buckets_by_len[L] + running
       suffix_candidates_for_len[L] = running] *)
Fixpoint suffix_loop (buckets_by_len : list (nat * list Pattern)) (lens : list nat)
    (running : list Pattern) (acc : list (nat * list Pattern)) : list (nat * list Pattern) :=
  match lens with
  | [] => acc
  | L :: lens' =>
      let running' := dict_get_default buckets_by_len L [] ++ running in
      suffix_loop buckets_by_len lens' running' (dict_set acc L running')
  end.

(** [non_subpatterns.discard(p)] *)
Definition set_discard (p : Pattern) (s : list Pattern) : list Pattern :=
  List.remove eq_dec p s.

Definition set_mem (p : Pattern) (s : list Pattern) : bool :=
  if in_dec eq_dec p s then true else false.

(** The main check: [for p in unique_sorted: ...]. *)
Fixpoint main_check (suffix_candidates_for_len : list (nat * list Pattern))
    (ps : list Pattern) (non_subpatterns : list Pattern) : list Pattern :=
  match ps with
  | [] => non_subpatterns
  | p :: ps' =>
      if negb (set_mem p non_subpatterns) then
        main_check suffix_candidates_for_len ps' non_subpatterns
      else
        let p_ctr := counter_of p in
        (* [p_len] is always a key of [suffix_candidates_for_len] *)
        let candidates := dict_get_default suffix_candidates_for_len (List.length p) [] in
        if existsb (fun q => if eq_dec q p then false
                             else _is_proper_multiset_subset p_ctr (counter_of q))
                   candidates
        then main_check suffix_candidates_for_len ps' (set_discard p non_subpatterns)
        else main_check suffix_candidates_for_len ps' non_subpatterns
  end.

Section RemoveSubpatterns.
(** The iteration order of the Python set built from a list of patterns. *)
Context (iter_set : list Pattern -> list Pattern).

Definition remove_subpatterns (pattern_data : PatternData) : PatternData :=
  let all_patterns := iter_set (List.concat (map snd pattern_data)) in
  let unique_sorted := sort_by_len all_patterns in
  let buckets_by_len := buckets_by_len_of unique_sorted in
  let non_subpatterns := all_patterns in
  let sorted_lengths := sort_nat (map fst buckets_by_len) in
  let suffix_candidates_for_len :=
    suffix_loop buckets_by_len (rev sorted_lengths) [] [] in
  let non_subpatterns := main_check suffix_candidates_for_len unique_sorted non_subpatterns in
  map (fun '(key, patterns) => (key, filter (fun p => set_mem p non_subpatterns) patterns))
    pattern_data.
End RemoveSubpatterns.

(** A Python set enumerates each element of the collection it was built
    from exactly once, in some order. *)
Definition set_order_ok (iter_set : list Pattern -> list Pattern) : Prop :=
  forall l, NoDup (iter_set l) /\ (forall x, In x (iter_set l) <-> In x l).

(** The first-occurrence order, one valid set order. *)
Definition first_occurrence_order (l : list Pattern) : list Pattern := nodup eq_dec l.

Section GeneratePatternsTop.
Context {St : Type} (g : Generator St) (iter_set : list Pattern -> list Pattern).

Definition generate_patterns (fuel : nat) (schedule : Schedule)
    (frequency_data : FrequencyData) (duration_distributions : DurationDistributions)
    (params : PatternParams) : M St PatternData :=
  let scw := normalize_card_weights (surgeon_card_weights_of frequency_data) in
  let buckets := room_day_to_surgeons_of schedule in
  pattern_data <- buckets_loop g params duration_distributions fuel scw buckets [] ;;
  ret (remove_subpatterns iter_set pattern_data).
End GeneratePatternsTop.

(** The two generators as [generate_all_data] chains them, each with its
    own generator state ([rngs[2]], [rngs[3]]). *)
Definition generate_schedule_and_patterns {St : Type} (g : Generator St)
    (iter_set : list Pattern -> list Pattern) (fuel : nat) (s2 s3 : St)
    (frequency_data : FrequencyData) (duration_data : DurationDistributions)
    (rooms : list Room) (weekdays : list Weekday)
    (schedule_params : ScheduleParams) (pattern_params : PatternParams)
    : result (Schedule * PatternData) :=
  match generate_schedule g schedule_params frequency_data rooms weekdays s2 with
  | Ok (schedule, _) =>
      match generate_patterns g iter_set fuel schedule frequency_data duration_data
              pattern_params s3 with
      | Ok (patterns, _) => Ok (schedule, patterns)
      | Raise e => Raise e
      | OutOfFuel => OutOfFuel
      end
  | Raise e => Raise e
  | OutOfFuel => OutOfFuel
  end.

(** ** frequency_data.py: [create_card_groups] *)

(** [sorted(card_freq.items(), key=lambda x: -x[1])]: a stable insertion sort
    on the key [-freq]. *)
Fixpoint insert_by_neg_freq (x : OperationCard * Q) (l : list (OperationCard * Q))
  : list (OperationCard * Q) :=
  match l with
  | [] => [x]
  | y :: l' => if Qltb (- snd x) (- snd y) then x :: y :: l'
               else y :: insert_by_neg_freq x l'
  end.

Definition sort_by_neg_freq (l : list (OperationCard * Q)) : list (OperationCard * Q) :=
  fold_left (fun acc x => insert_by_neg_freq x acc) l [].

(** [for _ in range(size): card, _ = sorted_cards[idx]; card_groups[card] = group_id;
       idx += 1] *)
Fixpoint assign_group (sorted_cards : list (OperationCard * Q)) (group_id : nat)
    (size : nat) (idx : nat) (card_groups : list (OperationCard * nat))
    : result (list (OperationCard * nat) * nat) :=
  match size with
  | O => Ok (card_groups, idx)
  | S size' =>
      match nth_error sorted_cards idx with
      | None => Raise IndexError
      | Some (card, _) =>
          assign_group sorted_cards group_id size' (S idx)
            (dict_set card_groups card group_id)
      end
  end.

(** [for group_id, size in enumerate(group_sizes): ...] *)
Fixpoint assign_groups (sorted_cards : list (OperationCard * Q)) (group_sizes : list Z)
    (group_id : nat) (idx : nat) (card_groups : list (OperationCard * nat))
    : result (list (OperationCard * nat)) :=
  match group_sizes with
  | [] => Ok card_groups
  | size :: rest =>
      match assign_group sorted_cards group_id (Z.to_nat size) idx card_groups with
      | Ok (card_groups', idx') => assign_groups sorted_cards rest (S group_id) idx' card_groups'
      | Raise e => Raise e
      | OutOfFuel => OutOfFuel
      end
  end.

(** [total_cards // n_groups] and [total_cards % n_groups] are Python's floor
    division and modulo, [Z.div] and [Z.modulo]; a zero divisor raises. *)
Definition create_card_groups (card_freq : list (OperationCard * Q)) (n_groups : Z)
  : result (list (OperationCard * nat)) :=
  let sorted_cards := sort_by_neg_freq card_freq in
  let total_cards := Z.of_nat (List.length sorted_cards) in
  if Z.eqb n_groups 0 then Raise ZeroDivisionError else
  let base_size := (total_cards / n_groups)%Z in
  let remainder := (total_cards mod n_groups)%Z in
  let group_sizes :=
    map (fun i => (base_size + (if Z.ltb (Z.of_nat i) remainder then 1 else 0))%Z)
      (seq 0 (Z.to_nat n_groups)) in
  assign_groups sorted_cards group_sizes 0 0 [].

(** ** duration_data.py: the index maps and the frequency matrix *)

(** [sorted(...)] with the element type's [<]. *)
Fixpoint insert_lt {A} (ltb : A -> A -> bool) (x : A) (l : list A) : list A :=
  match l with
  | [] => [x]
  | y :: l' => if ltb x y then x :: y :: l' else y :: insert_lt ltb x l'
  end.

Definition sort_lt {A} (ltb : A -> A -> bool) (l : list A) : list A :=
  fold_left (fun acc x => insert_lt ltb x acc) l [].

(** Python's [<] on [str]: code-point order, which is the byte order of the
    UTF-8 encodings that [string] holds. *)
Definition string_ltb (s1 s2 : string) : bool :=
  match String.compare s1 s2 with Lt => true | _ => false end.

(** [{op: i for i, op in enumerate(xs)}] *)
Definition enumerate_index {A} `{EqDec A} (xs : list A) : list (A * nat) :=
  fold_left (fun d '(i, x) => dict_set d x i) (combine (seq 0 (List.length xs)) xs) [].

(** [sorted({op for (op, _s) in frequency_data.keys()})]: the set is
    enumerated here in first-occurrence order; sorting its distinct elements
    under a strict total order gives the same list for every enumeration. *)
Definition _infer_index_maps_from_frequency_data (frequency_data : FrequencyData)
  : result (list OperationCard * list Surgeon * list (OperationCard * nat) * list (Surgeon * nat)) :=
  match frequency_data with
  | [] => Raise ValueError
  | _ :: _ =>
      let operation_cards :=
        sort_lt string_ltb (nodup string_dec (map (fun '((op, _), _) => op) frequency_data)) in
      let surgeons :=
        sort_lt Z.ltb (nodup Z.eq_dec (map (fun '((_, s), _) => s) frequency_data)) in
      Ok (operation_cards, surgeons, enumerate_index operation_cards, enumerate_index surgeons)
  end.

(** [l[i] = v] on an in-range index. *)
Fixpoint list_set {A} (l : list A) (i : nat) (v : A) : list A :=
  match l, i with
  | [], _ => []
  | _ :: l', O => v :: l'
  | x :: l', S i' => x :: list_set l' i' v
  end.

(** [f_ts[i, j] = v] on a numpy matrix; an index past the shape raises. *)
Definition matrix_set (m : list (list Q)) (i j : nat) (v : Q) : result (list (list Q)) :=
  match nth_error m i with
  | None => Raise IndexError
  | Some row =>
      if Nat.ltb j (List.length row) then Ok (list_set m i (list_set row j v))
      else Raise IndexError
  end.

(** [for (op, s), f in frequency_data.items(): ...] *)
Fixpoint fill_frequency_matrix (op_to_i : list (OperationCard * nat))
    (s_to_j : list (Surgeon * nat)) (items : FrequencyData) (f_ts : list (list Q))
    : result (list (list Q)) :=
  match items with
  | [] => Ok f_ts
  | ((op, s), f) :: rest =>
      if Qltb f 0 then Raise ValueError else
      match dict_get op_to_i op with
      | None => Raise KeyError
      | Some i =>
          match dict_get s_to_j s with
          | None => Raise KeyError
          | Some j =>
              match matrix_set f_ts i j f with
              | Ok f_ts' => fill_frequency_matrix op_to_i s_to_j rest f_ts'
              | Raise e => Raise e
              | OutOfFuel => OutOfFuel
              end
          end
      end
  end.

Definition _build_frequency_matrix (operation_cards : list OperationCard)
    (surgeons : list Surgeon) (op_to_i : list (OperationCard * nat))
    (s_to_j : list (Surgeon * nat)) (frequency_data : FrequencyData)
    : result (list (list Q)) :=
  let T := List.length operation_cards in
  let S := List.length surgeons in
  fill_frequency_matrix op_to_i s_to_j frequency_data (repeat (repeat 0 S) T).

(** ** Reference notions stated from the spec's words *)

(** The number of occurrences of card [k] in pattern [p]. *)
Definition card_count (p : Pattern) (k : OperationCard) : nat := count_occ string_dec p k.

(** "p is a proper multiset-subset of q iff every card's count in p is <= its
    count in q and p <> q as multisets". *)
Definition multiset_proper_subset (p q : Pattern) : Prop :=
  (forall k, (card_count p k <= card_count q k)%nat) /\
  ~ (forall k, card_count p k = card_count q k).

(** The survivors of [remove_subpatterns] as the spec states them: no
    pattern of the corpus is a proper multiset-superset. *)
Definition survives (corpus : list Pattern) (p : Pattern) : bool :=
  negb (existsb (fun q => _is_proper_multiset_subset (counter_of p) (counter_of q)) corpus).



(** ** What numpy's draws guarantee *)

(** [rng.dirichlet(alpha)] returns one probability vector of the length of
    [alpha]. *)
Definition dirichlet_valid {S : Type} (g : Generator S) : Prop :=
  forall s alpha w s', dirichlet g s alpha = Some (w, s') ->
    List.length w = List.length alpha /\ Forall (Qle 0) w /\ Qsum w == 1.

(** [rng.dirichlet(alpha)] accepts every non-empty vector of positive
    concentrations. *)
Definition dirichlet_accepts_positive {S : Type} (g : Generator S) : Prop :=
  forall s alpha, alpha <> [] -> Forall (Qlt 0) alpha -> dirichlet g s alpha <> None.

(** [rng.random(n)] returns [n] values. *)
Definition random_length_ok {S : Type} (g : Generator S) : Prop :=
  forall s n, List.length (fst (random g s n)) = n.

(** The weights a schedule gives one surgeon, over all its (room, weekday) keys. *)
Definition surgeon_entries (schedule : Schedule) (surgeon : Surgeon) : list Q :=
  map snd (filter (fun '((s, _, _), _) => Z.eqb s surgeon) schedule).

(** The surgeons that appear in a schedule. *)
Definition schedule_surgeons (schedule : Schedule) : list Surgeon :=
  map (fun '((s, _, _), _) => s) schedule.

(** The group id [create_card_groups] gives each position of its sorted
    cards: [size] copies of each group id, group after group. *)
Fixpoint group_labels (group_id : nat) (group_sizes : list Z) : list nat :=
  match group_sizes with
  | [] => []
  | size :: rest => repeat group_id (Z.to_nat size) ++ group_labels (S group_id) rest
  end.

(** ** Concrete inputs *)

(** A deterministic stand-in for numpy's [Generator] over a draw counter:
    Dirichlet draws are the uniform vector (non-positive concentrations are
    rejected), [random] is increasing, [choice] draws index 0 and every
    [lognormal] draw is [dur k] at the [k]-th draw. *)
Definition stub_generator (dur : nat -> Q) : Generator nat :=
  mkGenerator nat
    (fun s alpha =>
       if existsb (fun a => Qle_bool a 0) alpha then None
       else match alpha with
            | [] => None
            | _ :: _ => Some (repeat (1 / inject_Z (Z.of_nat (List.length alpha)))
                                     (List.length alpha), S s)
            end)
    (fun s n => (map (fun j => inject_Z (Z.of_nat j)) (seq 0 n), S s))
    (fun s p => match p with [] => None | _ :: _ => Some (0%nat, S s) end)
    (fun s _ _ => Some (dur s, S s)).

(** The last first-occurrence order, another valid set order. *)
Definition reversed_order (l : list Pattern) : list Pattern := rev (nodup eq_dec l).

(** The corpus of the spec's subsumption example. *)
Definition subsumption_example : PatternData :=
  [((0%Z, 0%Z), [["A"; "B"]; ["A"; "B"; "C"]; ["A"; "A"; "B"]])%string].

(** The same corpus spread over two buckets with a reordered duplicate. *)
Definition reordered_example : PatternData :=
  [((0%Z, 0%Z), [["A"; "B"]; ["B"; "A"]]);
   ((1%Z, 0%Z), [["A"; "A"; "B"]; ["B"; "A"]; ["A"]])]%string.

(** Durations that halve at every draw: [halving k] is the [k]-th
    [lognormal] value of [stub_generator halving], [1, 1/2, 1/4, ...]. *)
Fixpoint halving (k : nat) : Q :=
  match k with
  | O => 1
  | S k' => (1 # 2) * halving k'
  end.

(** * Proofs *)

(** ** Dictionaries *)

Section DictFacts.
Context {K V : Type} `{EqDec K}.

Lemma dict_get_set (d : list (K * V)) k v k' :
  dict_get (dict_set d k v) k' = if eq_dec k' k then Some v else dict_get d k'.
Proof.
  induction d as [|[k1 v1] d IH]; simpl.
  - destruct (eq_dec k' k); reflexivity.
  - destruct (eq_dec k k1) as [<-|Hne]; simpl.
    + destruct (eq_dec k' k); reflexivity.
    + rewrite IH. destruct (eq_dec k' k1), (eq_dec k' k); subst; congruence.
Qed.

Lemma dict_get_default_set (d : list (K * V)) k v k' dflt :
  dict_get_default (dict_set d k v) k' dflt =
  if eq_dec k' k then v else dict_get_default d k' dflt.
Proof.
  unfold dict_get_default. rewrite dict_get_set. destruct (eq_dec k' k); reflexivity.
Qed.

Lemma dict_keys_set (d : list (K * V)) k v k' :
  In k' (map fst (dict_set d k v)) <-> k' = k \/ In k' (map fst d).
Proof.
  induction d as [|[k1 v1] d IH]; simpl.
  - intuition.
  - destruct (eq_dec k k1) as [<-|Hne]; simpl; [intuition|].
    rewrite IH. intuition.
Qed.

Lemma dict_keys_set_NoDup (d : list (K * V)) k v :
  NoDup (map fst d) -> NoDup (map fst (dict_set d k v)).
Proof.
  induction d as [|[k1 v1] d IH]; simpl; intros Hnd.
  - constructor; [intros []|constructor].
  - inversion Hnd as [|? ? Hnin Hnd']; subst.
    destruct (eq_dec k k1) as [<-|Hne]; simpl.
    + constructor; assumption.
    + constructor; [|auto]. rewrite dict_keys_set. intros [->|]; auto.
Qed.

Lemma dict_get_In (d : list (K * V)) k v :
  dict_get d k = Some v -> In (k, v) d.
Proof.
  induction d as [|[k1 v1] d IH]; simpl; [discriminate|].
  destruct (eq_dec k k1) as [<-|]; [injection 1 as <-; auto|auto].
Qed.
End DictFacts.

(** ** Counters *)

Lemma counter_get_of_aux (p : Pattern) (c : Counter) k :
  counter_get
    (fold_left (fun c card => dict_set c card (dict_get_default c card 0%nat + 1)%nat) p c) k
  = (counter_get c k + card_count p k)%nat.
Proof.
  revert c. induction p as [|a p IH]; intros c; simpl.
  - unfold card_count; simpl; lia.
  - rewrite IH. unfold counter_get, card_count. rewrite dict_get_default_set. simpl.
    destruct (eq_dec k a), (string_dec a k); subst; try congruence; lia.
Qed.

Lemma counter_get_of (p : Pattern) k : counter_get (counter_of p) k = card_count p k.
Proof. unfold counter_of. rewrite counter_get_of_aux. reflexivity. Qed.

Lemma counter_keys_of_aux (p : Pattern) (c : Counter) k :
  In k (map fst
    (fold_left (fun c card => dict_set c card (dict_get_default c card 0%nat + 1)%nat) p c))
  <-> In k (map fst c) \/ In k p.
Proof.
  revert c. induction p as [|a p IH]; intros c; simpl.
  - intuition.
  - rewrite IH, dict_keys_set. intuition.
Qed.

Lemma counter_keys_of (p : Pattern) k : In k (map fst (counter_of p)) <-> In k p.
Proof. unfold counter_of. rewrite counter_keys_of_aux. simpl. intuition. Qed.

Lemma counter_total_incr (c : Counter) k :
  counter_total (dict_set c k (dict_get_default c k 0%nat + 1)%nat) = S (counter_total c).
Proof.
  unfold counter_total, dict_get_default.
  induction c as [|[k1 n1] c IH]; simpl; [reflexivity|].
  destruct (eq_dec k k1); simpl; [lia|].
  rewrite IH. lia.
Qed.

Lemma counter_total_of (p : Pattern) : counter_total (counter_of p) = List.length p.
Proof.
  unfold counter_of.
  enough (forall c, counter_total
    (fold_left (fun c card => dict_set c card (dict_get_default c card 0%nat + 1)%nat) p c)
    = (counter_total c + List.length p)%nat) as ->; [reflexivity|].
  induction p as [|a p IH]; intros c; simpl; [lia|].
  rewrite IH, counter_total_incr. lia.
Qed.

Lemma card_count_le_length (p q : Pattern) :
  (forall k, (card_count p k <= card_count q k)%nat) ->
  (List.length p <= List.length q)%nat.
Proof.
  revert q. induction p as [|a p IH]; intros q Hle; simpl; [lia|].
  assert (Hin : In a q).
  { apply (count_occ_In string_dec). specialize (Hle a).
    unfold card_count in Hle. simpl in Hle. destruct (string_dec a a); [|congruence]. lia. }
  apply in_split in Hin as (q1 & q2 & ->).
  rewrite length_app. simpl.
  enough (List.length p <= List.length (q1 ++ q2))%nat by (rewrite length_app in *; lia).
  apply IH. intros k. specialize (Hle k). unfold card_count in *.
  rewrite count_occ_app in *. simpl in *.
  destruct (string_dec a k); lia.
Qed.

Lemma proper_subset_spec (p q : Pattern) :
  _is_proper_multiset_subset (counter_of p) (counter_of q) = true <->
  multiset_proper_subset p q.
Proof.
  unfold _is_proper_multiset_subset, multiset_proper_subset.
  rewrite !counter_total_of.
  assert (Hsub : existsb (fun k => Nat.ltb (counter_get (counter_of q) k)
                                          (counter_get (counter_of p) k))
                   (map fst (counter_of p)) = false <->
                 (forall k, (card_count p k <= card_count q k)%nat)).
  { rewrite <- Bool.not_true_iff_false, existsb_exists. split.
    - intros Hn k. destruct (Nat.le_gt_cases (card_count p k) (card_count q k)) as [|Hgt];
        [assumption|exfalso]. apply Hn. exists k. split.
      + apply counter_keys_of, (count_occ_In string_dec). unfold card_count in Hgt. lia.
      + rewrite !counter_get_of. apply Nat.ltb_lt. exact Hgt.
    - intros Hle (k & _ & Hlt). rewrite !counter_get_of, Nat.ltb_lt in Hlt.
      specialize (Hle k). lia. }
  assert (Heq : counter_eqb (counter_of p) (counter_of q) = true <->
                (forall k, card_count p k = card_count q k)).
  { unfold counter_eqb. rewrite forallb_forall. split.
    - intros Hall k.
      destruct (in_dec string_dec k (p ++ q)) as [Hin|Hnin].
      + apply Nat.eqb_eq. rewrite <- !counter_get_of. apply Hall.
        apply in_app_iff in Hin as [Hin|Hin]; apply in_app_iff;
          [left|right]; apply counter_keys_of; assumption.
      + unfold card_count. rewrite in_app_iff in Hnin.
        rewrite !(proj1 (count_occ_not_In _ _ _)); intuition.
    - intros Hall k _. rewrite !counter_get_of, Hall. apply Nat.eqb_refl. }
  destruct (Nat.ltb (List.length q) (List.length p)) eqn:Hlen.
  - split; [discriminate|]. intros [Hle _].
    apply card_count_le_length in Hle. apply Nat.ltb_lt in Hlen. lia.
  - destruct (existsb _ _) eqn:Hex.
    + split; [discriminate|]. intros [Hle _]. apply Hsub in Hle. congruence.
    + rewrite Bool.negb_true_iff, <- Bool.not_true_iff_false, Heq.
      split; [intros Hn; split; [apply Hsub; reflexivity|exact Hn]|tauto].
Qed.

(** ** Sorting *)

Lemma insert_by_len_perm p l : Permutation (insert_by_len p l) (p :: l).
Proof.
  induction l as [|q l IH]; simpl; [reflexivity|].
  destruct (Nat.ltb _ _); [reflexivity|].
  rewrite IH. apply perm_swap.
Qed.

Lemma sort_by_len_perm l : Permutation (sort_by_len l) l.
Proof.
  unfold sort_by_len.
  enough (forall acc, Permutation (fold_left (fun acc p => insert_by_len p acc) l acc)
                                  (l ++ acc)) as H by (rewrite H, app_nil_r; reflexivity).
  induction l as [|p l IH]; intros acc; simpl; [reflexivity|].
  rewrite IH, insert_by_len_perm. apply Permutation_sym, Permutation_middle.
Qed.

Lemma insert_nat_perm n l : Permutation (insert_nat n l) (n :: l).
Proof.
  induction l as [|m l IH]; simpl; [reflexivity|].
  destruct (Nat.leb _ _); [reflexivity|].
  rewrite IH. apply perm_swap.
Qed.

Lemma sort_nat_perm l : Permutation (sort_nat l) l.
Proof.
  unfold sort_nat.
  enough (forall acc, Permutation (fold_left (fun acc n => insert_nat n acc) l acc)
                                  (l ++ acc)) as H by (rewrite H, app_nil_r; reflexivity).
  induction l as [|n l IH]; intros acc; simpl; [reflexivity|].
  rewrite IH, insert_nat_perm. apply Permutation_sym, Permutation_middle.
Qed.

Lemma insert_nat_sorted n l :
  StronglySorted le l -> StronglySorted le (insert_nat n l).
Proof.
  induction l as [|m l IH]; simpl; intros Hs.
  - repeat constructor.
  - apply StronglySorted_inv in Hs as [Hs Hf].
    destruct (Nat.leb n m) eqn:Hnm.
    + apply Nat.leb_le in Hnm. constructor; [constructor; assumption|].
      constructor; [assumption|].
      eapply Forall_impl; [|exact Hf]. intros; lia.
    + apply Nat.leb_gt in Hnm. constructor; [auto|].
      apply Forall_forall. intros x Hx.
      apply (Permutation_in _ (insert_nat_perm n l)) in Hx as [<-|Hx]; [lia|].
      rewrite Forall_forall in Hf. auto.
Qed.

Lemma sort_nat_sorted l : StronglySorted le (sort_nat l).
Proof.
  unfold sort_nat.
  enough (forall acc, StronglySorted le acc ->
            StronglySorted le (fold_left (fun acc n => insert_nat n acc) l acc))
    by (apply H; constructor).
  induction l as [|n l IH]; intros acc Hacc; simpl; auto using insert_nat_sorted.
Qed.

Lemma sorted_NoDup_lt l : StronglySorted le l -> NoDup l -> StronglySorted lt l.
Proof.
  induction l as [|a l IH]; intros Hs Hnd; [constructor|].
  apply StronglySorted_inv in Hs as [Hs Hf]. inversion Hnd; subst.
  constructor; [auto|]. rewrite Forall_forall in *.
  intros x Hx. specialize (Hf x Hx).
  destruct (Nat.eq_dec a x) as [->|]; [contradiction|lia].
Qed.

Lemma StronglySorted_snoc {A} (R : A -> A -> Prop) l a :
  StronglySorted R l -> (forall y, In y l -> R y a) -> StronglySorted R (l ++ [a]).
Proof.
  induction l as [|b l IH]; simpl; intros Hs Ha.
  - repeat constructor.
  - apply StronglySorted_inv in Hs as [Hs Hf]. constructor; [auto|].
    apply Forall_app. split; [assumption|]. constructor; [auto|constructor].
Qed.

Lemma sorted_rev_gt l : StronglySorted lt l -> StronglySorted gt (rev l).
Proof.
  induction l as [|a l IH]; simpl; intros Hs; [constructor|].
  apply StronglySorted_inv in Hs as [Hs Hf].
  apply StronglySorted_snoc; [auto|].
  intros y Hy. apply in_rev in Hy. rewrite Forall_forall in Hf. apply Hf in Hy. lia.
Qed.

(** ** Length buckets and suffix candidates *)

Lemma buckets_by_len_get_aux (us : list Pattern) acc L q :
  In q (dict_get_default
          (fold_left (fun acc p => dict_set acc (List.length p)
                         (dict_get_default acc (List.length p) [] ++ [p])) us acc) L [])
  <-> In q (dict_get_default acc L []) \/ (In q us /\ List.length q = L).
Proof.
  revert acc. induction us as [|p us IH]; intros acc; simpl.
  - intuition.
  - rewrite IH, dict_get_default_set.
    destruct (eq_dec L (List.length p)) as [->|Hne].
    + rewrite in_app_iff. simpl. intuition (subst; auto).
    + intuition (subst; auto). congruence.
Qed.

Lemma buckets_by_len_get us L q :
  In q (dict_get_default (buckets_by_len_of us) L []) <-> In q us /\ List.length q = L.
Proof.
  unfold buckets_by_len_of. rewrite buckets_by_len_get_aux. simpl. intuition.
Qed.

Lemma buckets_by_len_keys_aux (us : list Pattern) acc L :
  In L (map fst
          (fold_left (fun acc p => dict_set acc (List.length p)
                         (dict_get_default acc (List.length p) [] ++ [p])) us acc))
  <-> In L (map fst acc) \/ (exists q, In q us /\ List.length q = L).
Proof.
  revert acc. induction us as [|p us IH]; intros acc; simpl.
  - split; [auto|intros [H|(q & [] & _)]; exact H].
  - rewrite IH, dict_keys_set. split.
    + intros [[->|H]|(q & Hq & <-)]; eauto.
    + intros [H|(q & [<-|Hq] & <-)]; eauto.
Qed.

Lemma buckets_by_len_keys us L :
  In L (map fst (buckets_by_len_of us)) <-> exists q, In q us /\ List.length q = L.
Proof.
  unfold buckets_by_len_of. rewrite buckets_by_len_keys_aux. simpl. intuition.
Qed.

Lemma buckets_by_len_keys_NoDup us : NoDup (map fst (buckets_by_len_of us)).
Proof.
  unfold buckets_by_len_of.
  enough (forall acc : list (nat * list Pattern), NoDup (map fst acc) ->
            NoDup (map fst (fold_left (fun acc p => dict_set acc (List.length p)
                       (dict_get_default acc (List.length p) [] ++ [p])) us acc)))
    by (apply H; constructor).
  induction us as [|p us IH]; intros acc Hacc; simpl; auto using dict_keys_set_NoDup.
Qed.

Lemma suffix_loop_other bl lens running acc L :
  ~ In L lens ->
  dict_get_default (suffix_loop bl lens running acc) L [] = dict_get_default acc L [].
Proof.
  revert running acc. induction lens as [|L0 lens IH]; intros running acc Hn; simpl; auto.
  rewrite IH by (simpl in Hn; tauto). rewrite dict_get_default_set.
  destruct (eq_dec L L0); [subst; simpl in Hn; tauto|reflexivity].
Qed.

Lemma suffix_loop_get bl lens running acc L q :
  StronglySorted gt lens -> In L lens ->
  In q (dict_get_default (suffix_loop bl lens running acc) L []) <->
  In q running \/
  (exists L', In L' lens /\ (L <= L')%nat /\ In q (dict_get_default bl L' [])).
Proof.
  revert running acc. induction lens as [|L0 lens IH]; intros running acc Hs HL;
    [destruct HL|].
  apply StronglySorted_inv in Hs as [Hs Hf]. rewrite Forall_forall in Hf.
  simpl. destruct (Nat.eq_dec L L0) as [->|Hne].
  - assert (Hn : ~ In L0 lens) by (intros Hin; apply Hf in Hin; lia).
    rewrite suffix_loop_other by exact Hn. rewrite dict_get_default_set.
    destruct (eq_dec L0 L0) as [_|]; [|congruence].
    rewrite in_app_iff. split.
    + intros [H|H]; [right; exists L0; auto|auto].
    + intros [H|(L' & [<-|HL'] & Hle & Hq)]; auto.
      apply Hf in HL'. lia.
  - destruct HL as [->|HL]; [congruence|].
    rewrite IH by assumption. rewrite in_app_iff.
    assert (HL0 : (L <= L0)%nat) by (apply Hf in HL; lia).
    split.
    + intros [[H|H]|(L' & HL' & Hle & Hq)]; eauto 6.
    + intros [H|(L' & [<-|HL'] & Hle & Hq)]; eauto 6.
Qed.

(** ** The main check and the characterisation of the survivors *)

Lemma set_discard_In p s x : In x (set_discard p s) <-> In x s /\ x <> p.
Proof.
  unfold set_discard. split; [apply in_remove|].
  intros [Hin Hne]. apply in_in_remove; assumption.
Qed.

Section MainCheck.
Variable sfx : list (nat * list Pattern).

(** [p] finds a strict superpattern among its candidates. *)
Let found (p : Pattern) : bool :=
  existsb (fun q => if eq_dec q p then false
                    else _is_proper_multiset_subset (counter_of p) (counter_of q))
    (dict_get_default sfx (List.length p) []).

Lemma main_check_In ps ns x :
  NoDup ps ->
  In x (main_check sfx ps ns) <-> In x ns /\ ~ (In x ps /\ found x = true).
Proof.
  revert ns. induction ps as [|p ps IH]; intros ns Hnd; simpl.
  - tauto.
  - inversion Hnd as [|? ? Hp Hnd']; subst.
    unfold set_mem. destruct (in_dec eq_dec p ns) as [Hin|Hnin]; simpl.
    + fold (found p). destruct (found p) eqn:Hf.
      * rewrite IH, set_discard_In by assumption.
        destruct (eq_dec x p) as [->|Hne]; [intuition congruence|intuition].
      * rewrite IH by assumption.
        destruct (eq_dec x p) as [->|Hne]; [intuition congruence|intuition].
    + rewrite IH by assumption.
      destruct (eq_dec x p) as [->|Hne]; [tauto|intuition].
Qed.
End MainCheck.

Lemma proper_irrefl p : _is_proper_multiset_subset (counter_of p) (counter_of p) = false.
Proof.
  apply Bool.not_true_iff_false. rewrite proper_subset_spec.
  intros [_ Hn]. apply Hn. reflexivity.
Qed.

Lemma proper_length p q :
  _is_proper_multiset_subset (counter_of p) (counter_of q) = true ->
  (List.length p <= List.length q)%nat.
Proof. rewrite proper_subset_spec. intros [Hle _]. apply card_count_le_length, Hle. Qed.

(** Whatever order the set is enumerated in, [remove_subpatterns] keeps, in
    every bucket, exactly the patterns with no strict superpattern in the
    whole corpus. *)
Lemma remove_subpatterns_char iter_set pd :
  set_order_ok iter_set ->
  remove_subpatterns iter_set pd =
  map (fun '(key, patterns) => (key, filter (survives (List.concat (map snd pd))) patterns)) pd.
Proof.
  intros Hok. unfold remove_subpatterns.
  set (corpus := List.concat (map snd pd)).
  destruct (Hok corpus) as [Hnd Hall].
  set (all := iter_set corpus) in *.
  set (us := sort_by_len all).
  assert (Hus : forall x, In x us <-> In x corpus).
  { intros x. unfold us. split; intros H.
    - apply Hall. eapply Permutation_in; [apply sort_by_len_perm|exact H].
    - eapply Permutation_in; [symmetry; apply sort_by_len_perm|apply Hall, H]. }
  assert (Hndus : NoDup us) by (eapply Permutation_NoDup; [symmetry; apply sort_by_len_perm|exact Hnd]).
  set (bl := buckets_by_len_of us).
  set (lens := rev (sort_nat (map fst bl))).
  set (sfx := suffix_loop bl lens [] []).
  assert (Hlens : StronglySorted gt lens).
  { apply sorted_rev_gt, sorted_NoDup_lt; [apply sort_nat_sorted|].
    eapply Permutation_NoDup; [symmetry; apply sort_nat_perm|apply buckets_by_len_keys_NoDup]. }
  assert (Hinlens : forall q, In q us -> In (List.length q) lens).
  { intros q Hq. unfold lens. rewrite <- in_rev.
    eapply Permutation_in; [symmetry; apply sort_nat_perm|].
    apply buckets_by_len_keys. eauto. }
  assert (Hcand : forall p q, In p us ->
            In q (dict_get_default sfx (List.length p) []) <->
            In q us /\ (List.length p <= List.length q)%nat).
  { intros p q Hp. unfold sfx. rewrite suffix_loop_get by auto. simpl. split.
    - intros [[]|(L' & _ & Hle & Hq)]. apply buckets_by_len_get in Hq as [Hq <-]. auto.
    - intros [Hq Hle]. right. exists (List.length q). repeat split; auto.
      apply buckets_by_len_get. auto. }
  apply map_ext_in. intros [key patterns] Hkp. f_equal.
  apply filter_ext_in. intros p Hp.
  assert (Hpc : In p corpus).
  { unfold corpus. apply in_concat. exists patterns. split; [|exact Hp].
    apply in_map_iff. exists (key, patterns). auto. }
  apply Bool.eq_iff_eq_true. unfold set_mem, survives.
  destruct (in_dec eq_dec p _) as [Hin|Hnin].
  - apply main_check_In in Hin as [_ Hn]; [|exact Hndus].
    split; [intros _|reflexivity].
    apply Bool.negb_true_iff, Bool.not_true_iff_false. intros Hex. apply Hn.
    split; [apply Hus, Hpc|].
    apply existsb_exists in Hex as (q & Hq & Hpq). apply existsb_exists.
    exists q. split.
    + apply Hcand; [apply Hus, Hpc|]. split; [apply Hus, Hq|]. apply proper_length, Hpq.
    + destruct (eq_dec q p) as [->|]; [rewrite proper_irrefl in Hpq; discriminate|exact Hpq].
  - split; [discriminate|]. intros Hsurv. exfalso. apply Hnin.
    apply main_check_In; [exact Hndus|]. split; [apply Hall, Hpc|].
    intros [_ Hf]. apply existsb_exists in Hf as (q & Hq & Hpq).
    destruct (eq_dec q p); [discriminate|].
    apply Bool.negb_true_iff, Bool.not_true_iff_false in Hsurv. apply Hsurv.
    apply existsb_exists. exists q. split; [|exact Hpq].
    apply Hus. apply (Hcand p q); [apply Hus, Hpc|exact Hq].
Qed.

Lemma card_count_lt_length (p q : Pattern) :
  (forall k, (card_count p k <= card_count q k)%nat) ->
  (exists k, (card_count p k < card_count q k)%nat) ->
  (List.length p < List.length q)%nat.
Proof.
  revert q. induction p as [|a p IH]; intros q Hle (k & Hk); simpl.
  - destruct q; [unfold card_count in Hk; simpl in Hk; lia|simpl; lia].
  - assert (Hin : In a q).
    { apply (count_occ_In string_dec). specialize (Hle a).
      unfold card_count in Hle. simpl in Hle. destruct (string_dec a a); [|congruence]. lia. }
    apply in_split in Hin as (q1 & q2 & ->).
    rewrite length_app. simpl.
    enough (List.length p < List.length (q1 ++ q2))%nat by (rewrite length_app in *; lia).
    apply IH.
    + intros k'. specialize (Hle k'). unfold card_count in *.
      rewrite count_occ_app in *. simpl in *. destruct (string_dec a k'); lia.
    + exists k. unfold card_count in *. rewrite count_occ_app in *. simpl in *.
      destruct (string_dec a k); lia.
Qed.

Lemma msp_length_lt p q : multiset_proper_subset p q -> (List.length p < List.length q)%nat.
Proof.
  intros [Hle Hne]. apply card_count_lt_length; [exact Hle|].
  destruct (existsb (fun k => Nat.ltb (card_count p k) (card_count q k)) q) eqn:Hex.
  - apply existsb_exists in Hex as (k & _ & Hk). apply Nat.ltb_lt in Hk. eauto.
  - exfalso. apply Hne. intros k. specialize (Hle k).
    destruct (in_dec string_dec k q) as [Hin|Hnin].
    + assert (Hk : Nat.ltb (card_count p k) (card_count q k) = false).
      { apply Bool.not_true_iff_false. intros Hk. apply Bool.not_true_iff_false in Hex.
        apply Hex, existsb_exists. eauto. }
      apply Nat.ltb_ge in Hk. lia.
    + unfold card_count in *. rewrite (proj1 (count_occ_not_In _ _ _) Hnin) in *. lia.
Qed.

Lemma msp_trans p q r :
  multiset_proper_subset p q -> multiset_proper_subset q r -> multiset_proper_subset p r.
Proof.
  intros [Hpq Hnpq] [Hqr Hnqr]. split.
  - intros k. specialize (Hpq k). specialize (Hqr k). lia.
  - intros Heq. apply Hnpq. intros k. specialize (Hpq k). specialize (Hqr k).
    specialize (Heq k). lia.
Qed.

Lemma filtered_corpus_In (keep : Pattern -> bool) (pd : PatternData) r :
  In r (List.concat (map snd (map (fun '(key, patterns) => (key, filter keep patterns)) pd)))
  <-> In r (List.concat (map snd pd)) /\ keep r = true.
Proof.
  induction pd as [|[key ps] pd IH]; simpl; [tauto|].
  rewrite !in_app_iff, IH, filter_In. tauto.
Qed.

Lemma survives_false_iff corpus p :
  survives corpus p = false <-> exists q, In q corpus /\ multiset_proper_subset p q.
Proof.
  unfold survives. rewrite Bool.negb_false_iff, existsb_exists.
  split; intros (q & Hq & H); exists q; split; auto; apply proper_subset_spec; auto.
Qed.

(** Every pattern of the corpus is a survivor or lies strictly below one. *)
Lemma exists_surviving_super corpus q :
  In q corpus ->
  exists r, In r corpus /\ survives corpus r = true /\
            (r = q \/ multiset_proper_subset q r).
Proof.
  set (N := list_max (map (@List.length OperationCard) corpus)).
  induction q as [q IH] using (induction_ltof1 _ (fun q => N - List.length q)%nat).
  intros Hq. destruct (survives corpus q) eqn:Hs.
  - exists q. auto.
  - apply survives_false_iff in Hs as (q' & Hq' & Hqq').
    destruct (IH q') as (r & Hr & Hsr & Hq'r); [|exact Hq'|].
    + unfold ltof. apply msp_length_lt in Hqq'.
      assert (List.length q' <= N)%nat.
      { unfold N. pose proof (proj1 (list_max_le (map (@List.length _) corpus) _) (le_n _))
          as Hf.
        rewrite Forall_forall in Hf. apply Hf, in_map, Hq'. }
      lia.
    + exists r. repeat split; auto. right.
      destruct Hq'r as [->|Hq'r]; [exact Hqq'|eapply msp_trans; eauto].
Qed.

Lemma filter_all_true {A} (f : A -> bool) l :
  (forall x, In x l -> f x = true) -> filter f l = l.
Proof.
  induction l as [|a l IH]; simpl; intros H; [reflexivity|].
  rewrite H by auto. f_equal. auto.
Qed.

Lemma first_occurrence_order_ok : set_order_ok first_occurrence_order.
Proof.
  intros l. split; [apply NoDup_nodup|]. intros x. apply nodup_In.
Qed.

Lemma reversed_order_ok : set_order_ok reversed_order.
Proof.
  intros l. unfold reversed_order. split.
  - apply NoDup_rev, NoDup_nodup.
  - intros x. rewrite <- in_rev. apply nodup_In.
Qed.

(** ** Claims about [remove_subpatterns] *)

(** C2. [remove_subpatterns] filters each bucket by one predicate; a pattern
    of the corpus is kept if and only if no surviving pattern is a proper
    multiset-superset of it.  The code's [_is_proper_multiset_subset] on the
    two Counters is exactly "every count <= and not equal as multisets" (so
    equal multisets, reordered or not, never remove each other), and on
    [(A,B), (A,B,C), (A,A,B)] exactly [(A,B)] is removed.  This holds for every
    iteration order of the Python set. *)
Theorem remove_subpatterns_removes_proper_subsets (iter_set : list Pattern -> list Pattern)
    (pd : PatternData) :
  set_order_ok iter_set ->
  (exists keep : Pattern -> bool,
     remove_subpatterns iter_set pd =
       map (fun '(key, patterns) => (key, filter keep patterns)) pd /\
     forall p, In p (List.concat (map snd pd)) ->
       (keep p = true <->
        ~ exists q, In q (List.concat (map snd (remove_subpatterns iter_set pd))) /\
                    multiset_proper_subset p q)) /\
  (forall p q, _is_proper_multiset_subset (counter_of p) (counter_of q) = true <->
               multiset_proper_subset p q) /\
  remove_subpatterns iter_set subsumption_example =
    [((0%Z, 0%Z), [["A"; "B"; "C"]; ["A"; "A"; "B"]])%string].
Proof.
  intros Hok. split; [|split].
  - set (corpus := List.concat (map snd pd)).
    exists (survives corpus). split; [apply remove_subpatterns_char, Hok|].
    intros p Hp. rewrite remove_subpatterns_char by exact Hok. fold corpus.
    split.
    + intros Hs (q & Hq & Hpq). apply filtered_corpus_In in Hq as [Hq _].
      assert (Hf : survives corpus p = false) by (apply survives_false_iff; eauto).
      congruence.
    + intros Hn. destruct (survives corpus p) eqn:Hs; [reflexivity|exfalso].
      apply survives_false_iff in Hs as (q & Hq & Hpq).
      destruct (exists_surviving_super corpus q Hq) as (r & Hr & Hsr & Hqr).
      apply Hn. exists r. split; [apply filtered_corpus_In; auto|].
      destruct Hqr as [->|Hqr]; [exact Hpq|eapply msp_trans; eauto].
  - exact proper_subset_spec.
  - rewrite remove_subpatterns_char by exact Hok. reflexivity.
Qed.

Lemma remove_subpatterns_removes_proper_subsets_witness :
  set_order_ok reversed_order /\
  (exists keep : Pattern -> bool,
     remove_subpatterns reversed_order reordered_example =
       map (fun '(key, patterns) => (key, filter keep patterns)) reordered_example /\
     forall p, In p (List.concat (map snd reordered_example)) ->
       (keep p = true <->
        ~ exists q, In q (List.concat (map snd (remove_subpatterns reversed_order
                                                  reordered_example))) /\
                    multiset_proper_subset p q)) /\
  (forall p q, _is_proper_multiset_subset (counter_of p) (counter_of q) = true <->
               multiset_proper_subset p q) /\
  remove_subpatterns reversed_order subsumption_example =
    [((0%Z, 0%Z), [["A"; "B"; "C"]; ["A"; "A"; "B"]])%string].
Proof.
  split; [exact reversed_order_ok|].
  apply (remove_subpatterns_removes_proper_subsets reversed_order reordered_example
           reversed_order_ok).
Defined.

(** C5. [remove_subpatterns] is idempotent: run on its own output it removes
    nothing more, whatever the set iteration order. *)
Theorem remove_subpatterns_idempotent (iter_set : list Pattern -> list Pattern)
    (pd : PatternData) :
  set_order_ok iter_set ->
  remove_subpatterns iter_set (remove_subpatterns iter_set pd) =
  remove_subpatterns iter_set pd.
Proof.
  intros Hok. rewrite (remove_subpatterns_char iter_set (remove_subpatterns iter_set pd) Hok).
  rewrite (remove_subpatterns_char iter_set pd Hok).
  set (corpus := List.concat (map snd pd)).
  set (out := map (fun '(key, patterns) => (key, filter (survives corpus) patterns)) pd).
  transitivity (map (fun x => x) out); [|apply map_id].
  apply map_ext_in. intros [key ps] Hin.
  unfold out in Hin. apply in_map_iff in Hin as ([k0 ps0] & Heq & _).
  injection Heq as <- <-. f_equal.
  apply filter_all_true. intros x Hx. apply filter_In in Hx as [_ Hsx].
  destruct (survives (List.concat (map snd out)) x) eqn:Hs; [reflexivity|exfalso].
  apply survives_false_iff in Hs as (q & Hq & Hxq).
  apply filtered_corpus_In in Hq as [Hq _].
  assert (Hf : survives corpus x = false) by (apply survives_false_iff; eauto).
  congruence.
Qed.

Lemma remove_subpatterns_idempotent_witness :
  set_order_ok first_occurrence_order /\
  remove_subpatterns first_occurrence_order
    (remove_subpatterns first_occurrence_order reordered_example) =
  remove_subpatterns first_occurrence_order reordered_example.
Proof.
  split; [exact first_occurrence_order_ok|].
  apply (remove_subpatterns_idempotent first_occurrence_order reordered_example
           first_occurrence_order_ok).
Defined.

(** ** Determinism *)

(** C6. With the same generator, the same generator states and the same
    inputs, the schedule and the patterns are the same in every run, also
    across interpreter runs in which string hashing, and so the iteration
    order of the pattern set in [remove_subpatterns], differs. *)
Theorem generate_deterministic {St : Type} (g : Generator St)
    (iter_set1 iter_set2 : list Pattern -> list Pattern) (fuel : nat) (s2 s3 : St)
    (frequency_data : FrequencyData) (duration_data : DurationDistributions)
    (rooms : list Room) (weekdays : list Weekday)
    (schedule_params : ScheduleParams) (pattern_params : PatternParams) :
  set_order_ok iter_set1 -> set_order_ok iter_set2 ->
  generate_schedule_and_patterns g iter_set1 fuel s2 s3 frequency_data duration_data
    rooms weekdays schedule_params pattern_params =
  generate_schedule_and_patterns g iter_set2 fuel s2 s3 frequency_data duration_data
    rooms weekdays schedule_params pattern_params.
Proof.
  intros Hok1 Hok2. unfold generate_schedule_and_patterns, generate_patterns, bind, ret.
  destruct (generate_schedule g schedule_params frequency_data rooms weekdays s2)
    as [[schedule s2']| |]; [|reflexivity|reflexivity].
  destruct (buckets_loop _ _ _ _ _ _ _ s3) as [[pd s3']| |]; [|reflexivity|reflexivity].
  rewrite (remove_subpatterns_char iter_set1 pd Hok1),
          (remove_subpatterns_char iter_set2 pd Hok2).
  reflexivity.
Qed.

Lemma generate_deterministic_witness :
  set_order_ok first_occurrence_order /\ set_order_ok reversed_order /\
  generate_schedule_and_patterns (stub_generator (fun _ => 30)) first_occurrence_order
    100 0%nat 0%nat [(("A", 0%Z), 2); (("B", 0%Z), 1); (("C", 1%Z), 1)]%string
    [("A", (3, 1)); ("B", (3, 1)); ("C", (3, 1))]%string [0%Z; 1%Z] [0%Z; 1%Z]
    (mkScheduleParams 1 (1 # 2) (1 # 100)) (mkPatternParams 100 2) =
  generate_schedule_and_patterns (stub_generator (fun _ => 30)) reversed_order
    100 0%nat 0%nat [(("A", 0%Z), 2); (("B", 0%Z), 1); (("C", 1%Z), 1)]%string
    [("A", (3, 1)); ("B", (3, 1)); ("C", (3, 1))]%string [0%Z; 1%Z] [0%Z; 1%Z]
    (mkScheduleParams 1 (1 # 2) (1 # 100)) (mkPatternParams 100 2).
Proof.
  split; [exact first_occurrence_order_ok|split; [exact reversed_order_ok|]].
  apply (generate_deterministic (stub_generator (fun _ => 30)) first_occurrence_order
           reversed_order 100 0%nat 0%nat _ _ _ _ _ _ first_occurrence_order_ok reversed_order_ok).
Defined.

(** ** [generate_schedule] *)

Lemma room_day_pairs_length rooms weekdays :
  List.length (room_day_pairs rooms weekdays) = (List.length rooms * List.length weekdays)%nat.
Proof.
  unfold room_day_pairs. induction weekdays as [|d wd IH]; simpl; [lia|].
  rewrite length_app, length_map, IH. lia.
Qed.

Lemma room_day_pairs_NoDup rooms weekdays :
  NoDup rooms -> NoDup weekdays -> NoDup (room_day_pairs rooms weekdays).
Proof.
  intros Hr Hw. unfold room_day_pairs. induction Hw as [|d wd Hd Hw IH]; simpl; [constructor|].
  apply NoDup_app; [|exact IH|].
  - clear IH. induction Hr as [|r rs Hr' Hrs IHr]; simpl; constructor; [|exact IHr].
    intros Hin. apply in_map_iff in Hin as (r1 & Heq & Hin). injection Heq as ->.
    contradiction.
  - intros [r d'] Hin Hin'. apply in_map_iff in Hin as (r0 & Heq & _).
    injection Heq as <- <-. apply in_flat_map in Hin' as (d1 & Hd1 & Hin').
    apply in_map_iff in Hin' as (r1 & Heq & _). injection Heq as _ ->. contradiction.
Qed.

Lemma argmax_from_lt xs i best bv :
  (best < i)%nat -> (argmax_from xs i best bv < i + List.length xs)%nat.
Proof.
  revert i best bv. induction xs as [|x xs IH]; intros i best bv Hb; simpl; [lia|].
  destruct (Qltb bv x); specialize (IH (S i)); [specialize (IH i x)|specialize (IH best bv)]; lia.
Qed.

Lemma argmax_lt xs i : argmax xs = Some i -> (i < List.length xs)%nat.
Proof.
  destruct xs as [|x xs]; simpl; [discriminate|]. injection 1 as <-.
  pose proof (argmax_from_lt xs 1 0 x). lia.
Qed.

Lemma Qsum_app l1 l2 : Qsum (l1 ++ l2) == Qsum l1 + Qsum l2.
Proof.
  induction l1 as [|a l1 IH]; simpl; [ring|]. rewrite IH. ring.
Qed.

Lemma Qsum_div l t : Qsum (map (fun w => w / t) l) == Qsum l / t.
Proof.
  induction l as [|a l IH]; simpl.
  - unfold Qdiv. ring.
  - rewrite IH. unfold Qdiv. ring.
Qed.

Lemma Qsum_one_hot_from n a i :
  Qsum (map (fun j => if Nat.eqb j i then 1 else 0) (seq a n)) ==
  if andb (Nat.leb a i) (Nat.ltb i (a + n)) then 1 else 0.
Proof.
  revert a. induction n as [|n IH]; intros a; simpl.
  - destruct (Nat.leb a i) eqn:H1, (Nat.ltb i (a + 0)) eqn:H2; simpl; try reflexivity.
    apply Nat.leb_le in H1. apply Nat.ltb_lt in H2. lia.
  - rewrite IH. destruct (Nat.eqb a i) eqn:Hai.
    + apply Nat.eqb_eq in Hai. subst.
      destruct (Nat.leb (S i) i) eqn:H1; [apply Nat.leb_le in H1; lia|].
      destruct (Nat.leb i i) eqn:H3; [|apply Nat.leb_gt in H3; lia].
      destruct (Nat.ltb i (i + S n)) eqn:H4; [|apply Nat.ltb_ge in H4; lia].
      simpl. reflexivity.
    + apply Nat.eqb_neq in Hai.
      destruct (Nat.leb (S a) i) eqn:H1, (Nat.leb a i) eqn:H2,
               (Nat.ltb i (S a + n)) eqn:H3, (Nat.ltb i (a + S n)) eqn:H4; simpl;
        try reflexivity;
        repeat match goal with
        | H : Nat.leb _ _ = true |- _ => apply Nat.leb_le in H
        | H : Nat.leb _ _ = false |- _ => apply Nat.leb_gt in H
        | H : Nat.ltb _ _ = true |- _ => apply Nat.ltb_lt in H
        | H : Nat.ltb _ _ = false |- _ => apply Nat.ltb_ge in H
        end; lia.
Qed.

Lemma one_hot_valid n i :
  (i < n)%nat ->
  List.length (one_hot n i) = n /\ Forall (Qle 0) (one_hot n i) /\ Qsum (one_hot n i) == 1.
Proof.
  intros Hi. unfold one_hot. split; [|split].
  - rewrite length_map, length_seq. reflexivity.
  - apply Forall_forall. intros x Hx. apply in_map_iff in Hx as (j & <- & _).
    destruct (Nat.eqb j i); [apply Qle_bool_imp_le; reflexivity|apply Qle_refl].
  - rewrite Qsum_one_hot_from.
    destruct (Nat.leb 0 i) eqn:H1, (Nat.ltb i (0 + n)) eqn:H2; simpl; try reflexivity;
      repeat match goal with
      | H : Nat.leb _ _ = false |- _ => apply Nat.leb_gt in H
      | H : Nat.ltb _ _ = false |- _ => apply Nat.ltb_ge in H
      end; lia.
Qed.

Lemma Qsum_nonneg l : Forall (Qle 0) l -> 0 <= Qsum l.
Proof.
  induction 1 as [|a l Ha Hl IH]; simpl; [apply Qle_refl|].
  apply (Qplus_le_compat 0 a 0 (Qsum l)) in IH; [|exact Ha]. exact IH.
Qed.

Section SurgeonWeights.
Context {S : Type} (g : Generator S) (params : ScheduleParams).

(** Each surgeon's weight vector is a probability vector over the slots. *)
Lemma surgeon_weights_valid num_slots workload s ws s' :
  dirichlet_valid g -> random_length_ok g ->
  surgeon_weights g params num_slots workload s = Ok (ws, s') ->
  List.length ws = num_slots /\ Forall (Qle 0) ws /\ Qsum ws == 1.
Proof.
  intros Hd Hr. unfold surgeon_weights, bind, ret, raise, rng_dirichlet, rng_random.
  destruct (Qeq_bool _ 0); [discriminate|].
  destruct (dirichlet g s _) as [[w s1]|] eqn:Hw; [|discriminate].
  destruct (Hd _ _ _ _ Hw) as (Hlen & Hnn & Hsum). rewrite repeat_length in Hlen.
  destruct (Qltb 0 (sparsity_threshold params)).
  - set (tw := apply_threshold _ w).
    assert (Htw : Forall (Qle 0) tw).
    { unfold tw, apply_threshold. apply Forall_map. eapply Forall_impl; [|exact Hnn].
      intros a Ha. destruct (Qltb a _); [apply Qle_refl|exact Ha]. }
    destruct (Qltb 0 (Qsum tw)) eqn:Htot.
    + assert (Hpos : 0 < Qsum tw).
      { unfold Qltb in Htot. apply Bool.negb_true_iff in Htot.
        apply Qnot_le_lt. intros Hle. apply Qle_bool_iff in Hle. congruence. }
      injection 1 as <- <-. split; [|split].
      * rewrite length_map. unfold tw, apply_threshold. rewrite length_map. exact Hlen.
      * apply Forall_map. eapply Forall_impl; [|exact Htw]. intros a Ha.
        unfold Qdiv. apply Qmult_le_0_compat; [exact Ha|].
        apply Qlt_le_weak, Qinv_lt_0_compat, Hpos.
      * rewrite Qsum_div. unfold Qdiv. apply Qmult_inv_r.
        intros H0. rewrite H0 in Hpos. apply (Qlt_irrefl 0), Hpos.
    + destruct (random g s1 num_slots) as [r s2].
      destruct (argmax r) as [i|] eqn:Ham; [|cbn; discriminate].
      destruct (Nat.ltb i num_slots) eqn:Hi; [|cbn; discriminate].
      cbn. injection 1 as <- <-. apply one_hot_valid, Nat.ltb_lt, Hi.
  - injection 1 as <- <-. auto.
Qed.
End SurgeonWeights.

Lemma dict_set_fresh {K V} `{EqDec K} (d : list (K * V)) k v :
  ~ In k (map fst d) -> dict_set d k v = d ++ [(k, v)].
Proof.
  induction d as [|[k1 v1] d IH]; simpl; intros Hn; [reflexivity|].
  destruct (eq_dec k k1) as [->|]; [tauto|]. rewrite IH by tauto. reflexivity.
Qed.

Lemma map_fst_combine {A B} (l1 : list A) (l2 : list B) :
  List.length l1 = List.length l2 -> map fst (combine l1 l2) = l1.
Proof.
  revert l2. induction l1 as [|a l1 IH]; intros [|b l2]; simpl; intros Hl;
    try discriminate; [reflexivity|]. rewrite IH by lia. reflexivity.
Qed.

Lemma map_snd_combine {A B} (l1 : list A) (l2 : list B) :
  List.length l1 = List.length l2 -> map snd (combine l1 l2) = l2.
Proof.
  revert l2. induction l1 as [|a l1 IH]; intros [|b l2]; simpl; intros Hl;
    try discriminate; [reflexivity|]. rewrite IH by lia. reflexivity.
Qed.

Lemma schedule_key_surgeon (sched : Schedule) s r d :
  In (s, r, d) (map fst sched) -> In s (schedule_surgeons sched).
Proof.
  unfold schedule_surgeons. rewrite !in_map_iff.
  intros ([[[s1 r1] d1] w] & Heq & Hin). simpl in Heq. injection Heq as -> -> ->.
  exists (s, r, d, w). split; [reflexivity|exact Hin].
Qed.

Lemma schedule_surgeons_app l1 l2 :
  schedule_surgeons (l1 ++ l2) = schedule_surgeons l1 ++ schedule_surgeons l2.
Proof. apply map_app. Qed.

Lemma surgeon_entries_app l1 l2 x :
  surgeon_entries (l1 ++ l2) x = surgeon_entries l1 x ++ surgeon_entries l2 x.
Proof. unfold surgeon_entries. rewrite filter_app, map_app. reflexivity. Qed.

Lemma surgeon_entries_other (l : Schedule) x :
  ~ In x (schedule_surgeons l) -> surgeon_entries l x = [].
Proof.
  induction l as [|[[[s r] d] w] l IH]; simpl; intros Hn; [reflexivity|].
  unfold surgeon_entries in *. simpl. destruct (Z.eqb s x) eqn:E.
  - apply Z.eqb_eq in E. subst. tauto.
  - apply IH. tauto.
Qed.

Lemma surgeon_entries_all (l : Schedule) x :
  (forall y, In y (schedule_surgeons l) -> y = x) -> surgeon_entries l x = map snd l.
Proof.
  induction l as [|[[[s r] d] w] l IH]; simpl; intros Hall; [reflexivity|].
  unfold surgeon_entries in *. simpl. rewrite (Hall s (or_introl eq_refl)), Z.eqb_refl.
  simpl. f_equal. apply IH. auto.
Qed.

Section Store.
Variable surgeon : Surgeon.

Lemma store_weights_fresh (acc : Schedule) pw :
  NoDup (map fst pw) ->
  (forall r d, In (r, d) (map fst pw) -> ~ In (surgeon, r, d) (map fst acc)) ->
  store_weights acc surgeon pw = acc ++ store_weights [] surgeon pw.
Proof.
  revert acc. induction pw as [|[[r d] w] pw IH]; intros acc Hnd Hfr; simpl;
    [rewrite app_nil_r; reflexivity|].
  inversion Hnd as [|? ? Hn Hnd']; subst.
  assert (Hfr' : forall acc', (forall r' d', In (r', d') (map fst pw) ->
                               ~ In (surgeon, r', d') (map fst acc')) ->
            store_weights acc' surgeon pw = acc' ++ store_weights [] surgeon pw)
    by (intros; apply IH; auto).
  destruct (Qltb 0 w).
  - simpl. rewrite dict_set_fresh by (apply Hfr; simpl; auto).
    rewrite Hfr'.
    + rewrite (Hfr' [(surgeon, r, d, w)]); [symmetry; apply app_assoc|].
      intros r' d' Hin [Heq|[]]. simpl in Heq. injection Heq as -> ->. contradiction.
    + intros r' d' Hin Hin'. rewrite map_app, in_app_iff in Hin'.
      destruct Hin' as [Hin'|[Heq|[]]]; [eapply Hfr; simpl; eauto|].
      injection Heq as -> ->. contradiction.
  - apply Hfr'. intros r' d' Hin. apply Hfr. simpl. auto.
Qed.

Lemma store_weights_cons r d w pw :
  NoDup (map fst (((r, d), w) :: pw)) ->
  store_weights [] surgeon (((r, d), w) :: pw) =
  (if Qltb 0 w then [((surgeon, r, d), w)] else []) ++ store_weights [] surgeon pw.
Proof.
  intros Hnd. inversion Hnd as [|? ? Hn Hnd']; subst. simpl.
  destruct (Qltb 0 w); simpl; [|reflexivity].
  apply store_weights_fresh; [exact Hnd'|].
  intros r' d' Hin [Heq|[]]. injection Heq as -> ->. contradiction.
Qed.

Lemma store_block pw :
  NoDup (map fst pw) -> Forall (Qle 0) (map snd pw) ->
  let B := store_weights [] surgeon pw in
  (forall y, In y (schedule_surgeons B) -> y = surgeon) /\
  Forall (Qlt 0) (map snd B) /\
  Qsum (map snd B) == Qsum (map snd pw).
Proof.
  induction pw as [|[[r d] w] pw IH]; intros Hnd Hnn; cbv zeta.
  - simpl. split; [intros y []|split; [constructor|reflexivity]].
  - rewrite store_weights_cons by exact Hnd.
    inversion Hnd as [|? ? Hn Hnd']; subst. inversion Hnn as [|? ? Hw Hnn']; subst.
    destruct (IH Hnd' Hnn') as (IH1 & IH2 & IH3).
    destruct (Qltb 0 w) eqn:Hpos; simpl.
    + split; [intros y [<-|Hy]; auto|split].
      * constructor; [|exact IH2]. unfold Qltb in Hpos.
        apply Bool.negb_true_iff in Hpos. apply Qnot_le_lt.
        intros Hle. apply Qle_bool_iff in Hle. congruence.
      * rewrite IH3. reflexivity.
    + split; [exact IH1|split; [exact IH2|]].
      unfold Qltb in Hpos. apply Bool.negb_false_iff, Qle_bool_imp_le in Hpos.
      assert (Hw0 : w == 0) by (apply Qle_antisym; assumption).
      rewrite IH3, Hw0. ring.
Qed.
End Store.

Lemma inject_Z_succ n : inject_Z (Z.of_nat (S n)) == 1 + inject_Z (Z.of_nat n).
Proof. rewrite Nat2Z.inj_succ, <- Z.add_1_l, inject_Z_plus. reflexivity. Qed.

Lemma surgeon_workloads_NoDup_aux (fd : FrequencyData) acc :
  NoDup (map fst acc) ->
  NoDup (map fst (fold_left
    (fun acc '((_, surgeon), freq) =>
       dict_set acc surgeon (dict_get_default acc surgeon 0 + freq)) fd acc)).
Proof.
  revert acc. induction fd as [|[[c x] f] fd IH]; intros acc Hnd; simpl; [exact Hnd|].
  apply IH, dict_keys_set_NoDup, Hnd.
Qed.

Lemma surgeon_workloads_NoDup fd : NoDup (map fst (surgeon_workloads fd)).
Proof. apply surgeon_workloads_NoDup_aux. constructor. Qed.

Section ScheduleLoop.
Context {St : Type} (g : Generator St) (params : ScheduleParams).
Hypothesis Hdir : dirichlet_valid g.
Hypothesis Hrand : random_length_ok g.

(** The loop appends one block per surgeon; each block holds that
    surgeon's positive weights, which sum to 1. *)
Lemma schedule_loop_blocks wl pairs sched0 s final s' :
  NoDup pairs -> NoDup (map fst wl) ->
  (forall x, In x (schedule_surgeons sched0) -> ~ In x (map fst wl)) ->
  schedule_loop g params wl pairs sched0 s = Ok (final, s') ->
  exists R, final = sched0 ++ R /\
    (forall y, In y (schedule_surgeons R) -> In y (map fst wl)) /\
    (forall x, In x (map fst wl) ->
       Forall (Qlt 0) (surgeon_entries R x) /\ Qsum (surgeon_entries R x) == 1) /\
    Qsum (map snd R) == inject_Z (Z.of_nat (List.length wl)).
Proof.
  intros Hp. revert sched0 s. induction wl as [|[x w] rest IH];
    intros sched0 s Hnd Hdis Hrun.
  - simpl in Hrun. injection Hrun as <- _. exists []. rewrite app_nil_r.
    split; [reflexivity|split; [intros y []|split; [intros x []|reflexivity]]].
  - simpl in Hrun. unfold bind in Hrun.
    destruct (surgeon_weights g params (List.length pairs) w s) as [[ws s1]| |] eqn:Hw;
      try discriminate.
    destruct (surgeon_weights_valid g params _ _ _ _ _ Hdir Hrand Hw) as (Hlen & Hnn & Hsum).
    simpl in Hnd. inversion Hnd as [|? ? Hx Hnd']; subst.
    assert (Hfst : map fst (combine pairs ws) = pairs) by (apply map_fst_combine; auto).
    assert (Hsnd : map snd (combine pairs ws) = ws) by (apply map_snd_combine; auto).
    rewrite store_weights_fresh in Hrun.
    2: { rewrite Hfst. exact Hp. }
    2: { intros r d _ Hin. apply (Hdis x); [|left; reflexivity].
         eapply schedule_key_surgeon, Hin. }
    destruct (store_block x (combine pairs ws)) as (HB1 & HB2 & HB3);
      [rewrite Hfst; exact Hp|rewrite Hsnd; exact Hnn|].
    set (B := store_weights [] x (combine pairs ws)) in *.
    assert (Hdis' : forall y, In y (schedule_surgeons (sched0 ++ B)) -> ~ In y (map fst rest)).
    { intros y Hy. rewrite schedule_surgeons_app, in_app_iff in Hy.
      destruct Hy as [Hy|Hy].
      - intros Hin. apply (Hdis y Hy). right. exact Hin.
      - rewrite (HB1 y Hy). exact Hx. }
    destruct (IH (sched0 ++ B) s1 Hnd' Hdis' Hrun) as (R & -> & HR1 & HR2 & HR3).
    + exists (B ++ R). rewrite app_assoc. split; [reflexivity|split; [|split]].
      * intros y Hy. rewrite schedule_surgeons_app, in_app_iff in Hy.
        destruct Hy as [Hy|Hy]; [left; symmetry; apply HB1, Hy|right; apply HR1, Hy].
      * intros y Hy. rewrite surgeon_entries_app. simpl in Hy. destruct Hy as [<-|Hy].
        -- rewrite (surgeon_entries_other R x) by (intros Hin; apply Hx, HR1, Hin).
           rewrite app_nil_r, (surgeon_entries_all B x HB1). split; [exact HB2|].
           rewrite HB3, Hsnd. exact Hsum.
        -- rewrite (surgeon_entries_other B y); [exact (HR2 y Hy)|].
           intros Hin. apply Hx. rewrite <- (HB1 y Hin). exact Hy.
      * rewrite map_app, Qsum_app, HB3, Hsnd, Hsum, HR3. symmetry. apply inject_Z_succ.
Qed.
End ScheduleLoop.

Lemma generate_schedule_blocks {St : Type} (g : Generator St) params fd rooms weekdays
    s sched s' :
  dirichlet_valid g -> random_length_ok g -> NoDup rooms -> NoDup weekdays ->
  generate_schedule g params fd rooms weekdays s = Ok (sched, s') ->
  (forall y, In y (schedule_surgeons sched) -> In y (map fst (surgeon_workloads fd))) /\
  (forall x, In x (map fst (surgeon_workloads fd)) ->
     Forall (Qlt 0) (surgeon_entries sched x) /\ Qsum (surgeon_entries sched x) == 1) /\
  Qsum (map snd sched) == inject_Z (Z.of_nat (List.length (surgeon_workloads fd))).
Proof.
  intros Hd Hr Hnr Hnw. unfold generate_schedule.
  destruct (Nat.eqb _ 0); [discriminate|]. intros Hrun.
  destruct (schedule_loop_blocks g params Hd Hr _ _ [] _ _ _
              (room_day_pairs_NoDup _ _ Hnr Hnw) (surgeon_workloads_NoDup fd)
              (fun x Hx => False_ind _ Hx) Hrun) as (R & -> & H1 & H2 & H3).
  simpl. auto.
Qed.

Lemma Qlt_Qltb x y : x < y -> Qltb x y = true.
Proof.
  intros H. unfold Qltb. apply Bool.negb_true_iff.
  destruct (Qle_bool y x) eqn:E; [|reflexivity].
  apply Qle_bool_iff in E. exfalso. apply (Qlt_not_le x y H E).
Qed.

Section SurgeonWeightsOk.
Context {St : Type} (g : Generator St) (params : ScheduleParams).
Hypothesis Hacc : dirichlet_accepts_positive g.
Hypothesis Hrand : random_length_ok g.
Hypothesis Hbase : 0 < base_concentration params.

(** With a positive concentration every step of the surgeon body succeeds. *)
Lemma surgeon_weights_ok num_slots workload s :
  (0 < num_slots)%nat -> 0 < 1 + workload_scaling params * workload ->
  exists ws s', surgeon_weights g params num_slots workload s = Ok (ws, s').
Proof.
  intros Hn Hden. unfold surgeon_weights, bind, ret, raise, rng_dirichlet, rng_random.
  destruct (Qeq_bool _ 0) eqn:E.
  { apply Qeq_bool_iff in E. rewrite E in Hden. destruct (Qlt_irrefl 0 Hden). }
  set (c := base_concentration params / _).
  assert (Hc : 0 < c).
  { unfold c, Qdiv. apply Qmult_lt_0_compat; [exact Hbase|].
    apply Qinv_lt_0_compat, Hden. }
  destruct (dirichlet g s (repeat c num_slots)) as [[w s1]|] eqn:Hw.
  2: { exfalso. refine (Hacc s (repeat c num_slots) _ _ Hw).
       - destruct num_slots; [lia|discriminate].
       - apply Forall_forall. intros a Ha. apply repeat_spec in Ha. subst. exact Hc. }
  destruct (Qltb 0 (sparsity_threshold params)); [|eauto].
  destruct (Qltb 0 _); [eauto|].
  destruct (random g s1 num_slots) as [r s2] eqn:Hr.
  assert (Hlen : List.length r = num_slots)
    by (pose proof (Hrand s1 num_slots) as Hl; rewrite Hr in Hl; exact Hl).
  destruct (argmax r) as [i|] eqn:Ham.
  - apply argmax_lt in Ham. rewrite Hlen in Ham.
    apply Nat.ltb_lt in Ham. rewrite Ham. cbn. eauto.
  - destruct r; [simpl in Hlen; lia|discriminate].
Qed.

Lemma schedule_loop_ok wl pairs sched0 s :
  pairs <> [] ->
  (forall x w, In (x, w) wl -> 0 < 1 + workload_scaling params * w) ->
  exists sched s', schedule_loop g params wl pairs sched0 s = Ok (sched, s').
Proof.
  intros Hp. revert sched0 s. induction wl as [|[x w] rest IH]; intros sched0 s Hw.
  - simpl. unfold ret. eauto.
  - simpl. unfold bind.
    destruct (surgeon_weights_ok (List.length pairs) w s) as (ws & s1 & ->).
    + destruct pairs; [contradiction|simpl; lia].
    + apply (Hw x). left. reflexivity.
    + apply IH. intros x' w' Hin. apply (Hw x'). right. exact Hin.
Qed.
End SurgeonWeightsOk.

(** ** The stand-in generator *)

Lemma Qsum_repeat a n : Qsum (repeat a n) == inject_Z (Z.of_nat n) * a.
Proof.
  induction n as [|n IH]; [reflexivity|].
  change (Qsum (repeat a (S n))) with (a + Qsum (repeat a n)).
  rewrite IH, inject_Z_succ. ring.
Qed.

Lemma repeat_uniform_valid m :
  (0 < m)%nat ->
  List.length (repeat (1 / inject_Z (Z.of_nat m)) m) = m /\
  Forall (Qle 0) (repeat (1 / inject_Z (Z.of_nat m)) m) /\
  Qsum (repeat (1 / inject_Z (Z.of_nat m)) m) == 1.
Proof.
  intros Hm.
  assert (Hpos : 0 < inject_Z (Z.of_nat m)) by (unfold Qlt; simpl; lia).
  split; [apply repeat_length|split].
  - apply Forall_forall. intros x Hx. apply repeat_spec in Hx. subst x.
    unfold Qdiv. apply Qmult_le_0_compat; [discriminate|].
    apply Qinv_le_0_compat, Qlt_le_weak, Hpos.
  - rewrite Qsum_repeat. unfold Qdiv. rewrite Qmult_1_l. apply Qmult_inv_r.
    intros H. rewrite H in Hpos. apply (Qlt_irrefl 0 Hpos).
Qed.

Lemma stub_dirichlet_valid dur : dirichlet_valid (stub_generator dur).
Proof.
  intros s alpha w s'. simpl.
  destruct (existsb _ alpha); [discriminate|].
  destruct alpha as [|a alpha]; [discriminate|]. injection 1 as <- _.
  exact (repeat_uniform_valid (List.length (a :: alpha)) ltac:(simpl; lia)).
Qed.

Lemma stub_random_length_ok dur : random_length_ok (stub_generator dur).
Proof. intros s n. simpl. rewrite length_map, length_seq. reflexivity. Qed.

Lemma stub_dirichlet_accepts_positive dur : dirichlet_accepts_positive (stub_generator dur).
Proof.
  intros s alpha Hne Hpos. simpl.
  assert (E : existsb (fun a => Qle_bool a 0) alpha = false).
  { apply Bool.not_true_iff_false. intros Hex. apply existsb_exists in Hex as (a & Ha & Hle).
    apply Qle_bool_iff in Hle. rewrite Forall_forall in Hpos.
    apply (Qlt_not_le 0 a (Hpos a Ha) Hle). }
  rewrite E. destruct alpha; [contradiction|discriminate].
Qed.

(** ** Claims on [generate_schedule] *)

(** C1. The weights of the whole schedule do not sum to 1: every surgeon's
    own weights sum to 1, so with distinct rooms and distinct weekdays the
    sum over all entries is the number of distinct surgeons of the frequency
    data. *)
Theorem generate_schedule_total_weight {St : Type} (g : Generator St)
    (params : ScheduleParams) (frequency_data : FrequencyData)
    (rooms : list Room) (weekdays : list Weekday) (s : St) (schedule : Schedule) (s' : St) :
  dirichlet_valid g -> random_length_ok g -> NoDup rooms -> NoDup weekdays ->
  generate_schedule g params frequency_data rooms weekdays s = Ok (schedule, s') ->
  Qsum (map snd schedule) ==
  inject_Z (Z.of_nat (List.length (surgeon_workloads frequency_data))).
Proof.
  intros Hd Hr Hnr Hnw Hrun.
  destruct (generate_schedule_blocks g params _ _ _ _ _ _ Hd Hr Hnr Hnw Hrun)
    as (_ & _ & Htot).
  exact Htot.
Qed.

Lemma generate_schedule_total_weight_witness :
  exists schedule s',
    generate_schedule (stub_generator (fun _ => 0)) (mkScheduleParams 1 (1 # 2) (1 # 100))
      [(("A", 0%Z), 2); (("B", 0%Z), 1); (("C", 1%Z), 1)]%string [0%Z; 1%Z] [0%Z; 1%Z] 0%nat
    = Ok (schedule, s') /\
    Qsum (map snd schedule) ==
    inject_Z (Z.of_nat (List.length (surgeon_workloads
      [(("A", 0%Z), 2); (("B", 0%Z), 1); (("C", 1%Z), 1)]%string))).
Proof.
  eexists; eexists; split; [reflexivity|].
  eapply (generate_schedule_total_weight (stub_generator (fun _ => 0))
            (mkScheduleParams 1 (1 # 2) (1 # 100)) _ [0%Z; 1%Z] [0%Z; 1%Z] 0%nat).
  - exact (stub_dirichlet_valid _).
  - exact (stub_random_length_ok _).
  - repeat constructor; simpl; intuition discriminate.
  - repeat constructor; simpl; intuition discriminate.
  - reflexivity.
Defined.

(** C1. Two surgeons, one room and one weekday: each surgeon gets the single
    slot with weight 1, and the schedule's weights sum to 2. *)
Lemma generate_schedule_total_weight_counterexample :
  exists schedule s',
    generate_schedule (stub_generator (fun _ => 0)) (mkScheduleParams 1 (1 # 2) (1 # 100))
      [(("A", 0%Z), 1); (("A", 1%Z), 1)]%string [0%Z] [0%Z] 0%nat = Ok (schedule, s') /\
    ~ (Qsum (map snd schedule) == 1).
Proof.
  eexists; eexists; split; [reflexivity|]. intros H. vm_compute in H. discriminate.
Qed.

(** C7. With no rooms or no weekdays there is no (room, weekday) slot, and
    [generate_schedule] raises [ValueError] at once: no draw is made and no
    schedule is returned. *)
Theorem generate_schedule_no_slots {St : Type} (g : Generator St)
    (params : ScheduleParams) (frequency_data : FrequencyData)
    (rooms : list Room) (weekdays : list Weekday) (s : St) :
  rooms = [] \/ weekdays = [] ->
  generate_schedule g params frequency_data rooms weekdays s = Raise ValueError.
Proof.
  intros H. unfold generate_schedule. cbv zeta. rewrite room_day_pairs_length.
  destruct H as [->| ->]; simpl; rewrite ?Nat.mul_0_r; reflexivity.
Qed.

Lemma generate_schedule_no_slots_witness :
  generate_schedule (stub_generator (fun _ => 0)) (mkScheduleParams 1 (1 # 2) (1 # 100))
    [(("A", 0%Z), 1)]%string [0%Z; 1%Z] [] 0%nat = Raise ValueError.
Proof.
  apply (generate_schedule_no_slots (stub_generator (fun _ => 0))
           (mkScheduleParams 1 (1 # 2) (1 # 100)) [(("A", 0%Z), 1)]%string [0%Z; 1%Z] [] 0%nat).
  right. reflexivity.
Defined.

(** C8. [generate_schedule] checks no sign: whatever the signs of the
    frequencies, it returns a schedule as soon as there are rooms and
    weekdays, the base concentration is positive and every surgeon's summed
    workload [w] keeps [1 + workload_scaling * w] positive. *)
Theorem generate_schedule_accepts_negative {St : Type} (g : Generator St)
    (params : ScheduleParams) (frequency_data : FrequencyData)
    (rooms : list Room) (weekdays : list Weekday) (s : St) :
  dirichlet_accepts_positive g -> random_length_ok g ->
  rooms <> [] -> weekdays <> [] -> 0 < base_concentration params ->
  (forall surgeon w, In (surgeon, w) (surgeon_workloads frequency_data) ->
     0 < 1 + workload_scaling params * w) ->
  exists schedule s', generate_schedule g params frequency_data rooms weekdays s = Ok (schedule, s').
Proof.
  intros Hacc Hr Hrooms Hdays Hbase Hw. unfold generate_schedule. cbv zeta.
  assert (Hlen : List.length (room_day_pairs rooms weekdays) <> 0%nat).
  { rewrite room_day_pairs_length. destruct rooms, weekdays; simpl; try contradiction. lia. }
  destruct (Nat.eqb _ 0) eqn:E; [apply Nat.eqb_eq in E; contradiction|].
  apply (schedule_loop_ok g params Hacc Hr Hbase); [|exact Hw].
  intros Hnil. rewrite Hnil in Hlen. apply Hlen. reflexivity.
Qed.

Lemma generate_schedule_accepts_negative_witness :
  exists schedule s',
    generate_schedule (stub_generator (fun _ => 0)) (mkScheduleParams 1 (1 # 2) (1 # 100))
      [(("A", 0%Z), -1); (("B", 1%Z), 3)]%string [0%Z; 1%Z] [0%Z] 0%nat = Ok (schedule, s').
Proof.
  apply (generate_schedule_accepts_negative (stub_generator (fun _ => 0))
           (mkScheduleParams 1 (1 # 2) (1 # 100)) [(("A", 0%Z), -1); (("B", 1%Z), 3)]%string
           [0%Z; 1%Z] [0%Z] 0%nat).
  - exact (stub_dirichlet_accepts_positive _).
  - exact (stub_random_length_ok _).
  - discriminate.
  - discriminate.
  - reflexivity.
  - intros x w Hin. vm_compute in Hin.
    destruct Hin as [H|[H|[]]]; injection H as <- <-; reflexivity.
Defined.

(** C8. A negative frequency is not rejected: one surgeon with frequency
    [-1] still gets a schedule. *)
Lemma generate_schedule_negative_counterexample :
  exists schedule s',
    generate_schedule (stub_generator (fun _ => 0)) (mkScheduleParams 1 (1 # 2) (1 # 100))
      [(("A", 0%Z), -1)]%string [0%Z] [0%Z] 0%nat = Ok (schedule, s') /\ schedule <> [].
Proof.
  eexists; eexists; split; [reflexivity|]. vm_compute. discriminate.
Qed.

(** C10. With distinct rooms and distinct weekdays, every surgeon of the
    returned schedule has strictly positive weights over its (room, weekday)
    keys, and they sum to 1. *)
Theorem generate_schedule_per_surgeon {St : Type} (g : Generator St)
    (params : ScheduleParams) (frequency_data : FrequencyData)
    (rooms : list Room) (weekdays : list Weekday) (s : St) (schedule : Schedule) (s' : St) :
  dirichlet_valid g -> random_length_ok g -> NoDup rooms -> NoDup weekdays ->
  generate_schedule g params frequency_data rooms weekdays s = Ok (schedule, s') ->
  forall surgeon, In surgeon (schedule_surgeons schedule) ->
    Forall (Qlt 0) (surgeon_entries schedule surgeon) /\
    Qsum (surgeon_entries schedule surgeon) == 1.
Proof.
  intros Hd Hr Hnr Hnw Hrun surgeon Hin.
  destruct (generate_schedule_blocks g params _ _ _ _ _ _ Hd Hr Hnr Hnw Hrun)
    as (H1 & H2 & _).
  apply H2, H1, Hin.
Qed.

Lemma generate_schedule_per_surgeon_witness :
  exists schedule s',
    generate_schedule (stub_generator (fun _ => 0)) (mkScheduleParams 1 (1 # 2) (1 # 100))
      [(("A", 0%Z), 2); (("B", 0%Z), 1); (("C", 1%Z), 1)]%string [0%Z; 1%Z] [0%Z; 1%Z] 0%nat
    = Ok (schedule, s') /\
    forall surgeon, In surgeon (schedule_surgeons schedule) ->
      Forall (Qlt 0) (surgeon_entries schedule surgeon) /\
      Qsum (surgeon_entries schedule surgeon) == 1.
Proof.
  eexists; eexists; split; [reflexivity|].
  eapply (generate_schedule_per_surgeon (stub_generator (fun _ => 0))
            (mkScheduleParams 1 (1 # 2) (1 # 100))
            [(("A", 0%Z), 2); (("B", 0%Z), 1); (("C", 1%Z), 1)]%string
            [0%Z; 1%Z] [0%Z; 1%Z] 0%nat).
  - exact (stub_dirichlet_valid _).
  - exact (stub_random_length_ok _).
  - repeat constructor; simpl; intuition discriminate.
  - repeat constructor; simpl; intuition discriminate.
  - reflexivity.
Defined.

(** C10. A room listed twice: the surgeon's two draws of 1/2 land on the same
    key, the second overwrites the first, and the surgeon's weights sum to 1/2. *)
Lemma generate_schedule_per_surgeon_counterexample :
  exists schedule s',
    generate_schedule (stub_generator (fun _ => 0)) (mkScheduleParams 1 (1 # 2) (1 # 100))
      [(("A", 0%Z), 1)]%string [0%Z; 0%Z] [0%Z] 0%nat = Ok (schedule, s') /\
    In 0%Z (schedule_surgeons schedule) /\ ~ (Qsum (surgeon_entries schedule 0%Z) == 1).
Proof.
  eexists; eexists; split; [reflexivity|split].
  - vm_compute. left. reflexivity.
  - intros H. vm_compute in H. discriminate.
Qed.

(** ** [generate_patterns] *)

Lemma dict_set_In {K V} `{EqDec K} (d : list (K * V)) k v k' v' :
  In (k', v') (dict_set d k v) -> (k' = k /\ v' = v) \/ In (k', v') d.
Proof.
  induction d as [|[k1 v1] d IH]; simpl.
  - intros [Heq|[]]. injection Heq as -> ->. auto.
  - destruct (eq_dec k k1) as [<-|Hne]; simpl.
    + intros [Heq|Hin]; [injection Heq as -> ->; auto|auto].
    + intros [Heq|Hin]; [auto|destruct (IH Hin); auto].
Qed.

Lemma Qltb_false_le x y : Qltb x y = false -> y <= x.
Proof. unfold Qltb. intros E. apply Bool.negb_false_iff, Qle_bool_imp_le in E. exact E. Qed.

Lemma Qle_Qltb_false x y : y <= x -> Qltb x y = false.
Proof. unfold Qltb. intros H. apply Qle_bool_iff in H. rewrite H. reflexivity. Qed.

Lemma remove_subpatterns_keys iter_set pd :
  set_order_ok iter_set -> map fst (remove_subpatterns iter_set pd) = map fst pd.
Proof.
  intros Hok. rewrite (remove_subpatterns_char iter_set pd Hok), map_map.
  apply map_ext. intros [k ps]. reflexivity.
Qed.

Lemma remove_subpatterns_In iter_set pd k ps p :
  set_order_ok iter_set -> In (k, ps) (remove_subpatterns iter_set pd) -> In p ps ->
  exists ps0, In (k, ps0) pd /\ In p ps0.
Proof.
  intros Hok. rewrite (remove_subpatterns_char iter_set pd Hok), in_map_iff.
  intros ([k0 ps0] & Heq & Hin) Hp. injection Heq as -> <-.
  apply filter_In in Hp as [Hp _]. eauto.
Qed.

Section PatternFacts.
Context {St : Type} (g : Generator St) (params : PatternParams)
  (duration_distributions : DurationDistributions).

(** A walk that appended anything ends with its total within the day. *)
Lemma walk_capacity fuel cards weights sq0 t0 s sq t s' :
  walk g params duration_distributions fuel cards weights sq0 t0 s = Ok ((sq, t), s') ->
  (sq = sq0 /\ t = t0) \/ t <= max_minutes_per_day params.
Proof.
  revert sq0 t0 s. induction fuel as [|fuel IH]; intros sq0 t0 s; simpl; [discriminate|].
  destruct (Qltb t0 _); [|unfold ret; injection 1 as -> -> _; auto].
  unfold bind, rng_choice. destruct (choice g s weights) as [[i s1]|]; [|discriminate].
  destruct (nth_error cards i) as [card|]; [|unfold raise; discriminate].
  destruct (dict_get duration_distributions card) as [[ml sd]|];
    [|unfold raise; discriminate].
  unfold rng_lognormal. destruct (lognormal g s1 ml sd) as [[d s2]|]; [|discriminate].
  destruct (Qltb _ (t0 + d)) eqn:E.
  - unfold ret. injection 1 as -> -> _. auto.
  - intros Hrun. destruct (IH _ _ _ Hrun) as [[-> ->]|Hle]; right; [|exact Hle].
    apply Qltb_false_le, E.
Qed.

Section AllPatterns.
Variable P : Pattern -> Prop.
Variable fuel : nat.
Hypothesis HP : forall cards weights s0 sq t s1,
  walk g params duration_distributions fuel cards weights [] 0 s0 = Ok ((sq, t), s1) ->
  sq <> [] -> P sq.

Lemma dict_set_all (pd : PatternData) key v :
  (forall k ps p, In (k, ps) pd -> In p ps -> P p) -> (forall p, In p v -> P p) ->
  forall k ps p, In (k, ps) (dict_set pd key v) -> In p ps -> P p.
Proof.
  intros Hpd Hv k ps p Hin Hp. apply dict_set_In in Hin as [[-> ->]|Hin]; eauto.
Qed.

Lemma sample_patterns_all n cards weights key pd s pd' s' :
  (forall k ps p, In (k, ps) pd -> In p ps -> P p) ->
  sample_patterns g params duration_distributions n fuel cards weights key pd s =
    Ok (pd', s') ->
  forall k ps p, In (k, ps) pd' -> In p ps -> P p.
Proof.
  revert pd s. induction n as [|n IH]; intros pd s Hpd; simpl.
  - unfold ret. injection 1 as -> _. exact Hpd.
  - unfold bind.
    destruct (walk g params duration_distributions fuel cards weights [] 0 s)
      as [[[sq t] s1]| |] eqn:Hw; try discriminate.
    simpl. apply IH. destruct sq as [|c sq]; [exact Hpd|].
    apply dict_set_all; [exact Hpd|]. intros p Hp. apply in_app_iff in Hp as [Hp|[<-|[]]].
    + unfold dict_get_default in Hp. destruct (dict_get pd key) as [ps|] eqn:Hg; [|destruct Hp].
      eapply Hpd; [apply dict_get_In, Hg|exact Hp].
    + eapply HP; [exact Hw|discriminate].
Qed.

Lemma process_bucket_all scw key sl pd s pd' s' :
  (forall k ps p, In (k, ps) pd -> In p ps -> P p) ->
  process_bucket g params duration_distributions fuel scw key sl pd s = Ok (pd', s') ->
  forall k ps p, In (k, ps) pd' -> In p ps -> P p.
Proof.
  intros Hpd. unfold process_bucket. destruct sl; [unfold ret; injection 1 as -> _; exact Hpd|].
  destruct (combined_card_weights_of _ _); [unfold ret; injection 1 as -> _; exact Hpd|].
  apply sample_patterns_all, Hpd.
Qed.

Lemma buckets_loop_all scw buckets pd s pd' s' :
  (forall k ps p, In (k, ps) pd -> In p ps -> P p) ->
  buckets_loop g params duration_distributions fuel scw buckets pd s = Ok (pd', s') ->
  forall k ps p, In (k, ps) pd' -> In p ps -> P p.
Proof.
  revert pd s. induction buckets as [|[key sl] rest IH]; intros pd s Hpd; simpl.
  - unfold ret. injection 1 as -> _. exact Hpd.
  - unfold bind.
    destruct (process_bucket g params duration_distributions fuel scw key sl pd s)
      as [[pd1 s1]| |] eqn:Hb; try discriminate.
    apply IH. eapply process_bucket_all; [exact Hpd|exact Hb].
Qed.
End AllPatterns.




End PatternFacts.



Lemma room_day_to_surgeons_NoDup (schedule : Schedule) :
  NoDup (map fst (room_day_to_surgeons_of schedule)).
Proof.
  unfold room_day_to_surgeons_of.
  assert (H : forall acc : list ((Weekday * Room) * list (Surgeon * Q)),
    NoDup (map fst acc) ->
    NoDup (map fst (fold_left
      (fun acc '((surgeon, room, day), score) =>
         dict_set acc (day, room) (dict_get_default acc (day, room) [] ++ [(surgeon, score)]))
      schedule acc))).
  { induction schedule as [|[[[x r] d] w] sched IH]; intros acc Hnd; simpl; [exact Hnd|].
    apply IH, dict_keys_set_NoDup, Hnd. }
  apply H. constructor.
Qed.

Lemma Qltb_true_lt x y : Qltb x y = true -> x < y.
Proof.
  unfold Qltb. intros E. apply Bool.negb_true_iff in E. apply Qnot_le_lt.
  intros Hle. apply Qle_bool_iff in Hle. congruence.
Qed.


Lemma halving_pos k : 0 < halving k.
Proof.
  induction k as [|k IH]; simpl; [reflexivity|].
  apply Qmult_lt_0_compat; [reflexivity|exact IH].
Qed.

(** With halving durations and a one-minute day the walk never stops: the
    total stays below [1 - halving s] at draw counter [s]. *)
Lemma walk_halving_out_of_fuel fuel s t sq :
  t + halving s <= 1 ->
  walk (stub_generator halving) (mkPatternParams 1 1) [("A", (0, 1))]%string fuel
    ["A"]%string [1] sq t s = OutOfFuel.
Proof.
  revert s t sq. induction fuel as [|fuel IH]; intros s t sq Hinv; [reflexivity|].
  pose proof (halving_pos s) as Hs. pose proof (halving_pos (S (S s))) as Hs2.
  cbn [walk max_minutes_per_day].
  rewrite (Qlt_Qltb t 1) by lra.
  unfold bind, rng_choice, rng_lognormal. cbn [choice lognormal stub_generator nth_error dict_get].
  destruct (eq_dec _ _) as [_|Hne]; [|congruence]. cbv beta iota.
  rewrite (Qle_Qltb_false 1 (t + halving (S s))).
  - apply IH. cbn [halving] in *. lra.
  - cbn [halving]. lra.
Qed.

(** ** Claims on [generate_patterns] *)

(** C3. Every pattern of the output of [generate_patterns] is non-empty and
    is the sequence of one bounded walk of the code, started from an empty
    sequence and total, whose accumulated duration does not exceed
    [max_minutes_per_day]: a draw that would pass the limit ends the walk
    without being appended, and an empty sequence is never stored. *)
Theorem generate_patterns_within_capacity {St : Type} (g : Generator St)
    (iter_set : list Pattern -> list Pattern) (fuel : nat) (schedule : Schedule)
    (frequency_data : FrequencyData) (duration_distributions : DurationDistributions)
    (params : PatternParams) (s : St) (out : PatternData) (s' : St) :
  set_order_ok iter_set ->
  generate_patterns g iter_set fuel schedule frequency_data duration_distributions params s =
    Ok (out, s') ->
  forall key patterns p, In (key, patterns) out -> In p patterns ->
    p <> [] /\
    exists cards weights s0 total s1,
      walk g params duration_distributions fuel cards weights [] 0 s0 = Ok ((p, total), s1) /\
      total <= max_minutes_per_day params.
Proof.
  intros Hok Hrun key ps p Hin Hp. unfold generate_patterns, bind, ret in Hrun.
  destruct (buckets_loop _ _ _ _ _ _ _ s) as [[pd s1]| |] eqn:Hb; try discriminate.
  injection Hrun as <- _.
  destruct (remove_subpatterns_In _ _ _ _ _ Hok Hin Hp) as (ps0 & Hin0 & Hp0).
  refine (buckets_loop_all g params duration_distributions
            (fun p => p <> [] /\
               exists cards weights s0 total s1,
                 walk g params duration_distributions fuel cards weights [] 0 s0 =
                   Ok ((p, total), s1) /\ total <= max_minutes_per_day params)
            fuel _ _ _ _ _ _ _ _ Hb _ _ _ Hin0 Hp0).
  - intros cards weights s0 sq t s2 Hw Hne. split; [exact Hne|].
    exists cards, weights, s0, t, s2. split; [exact Hw|].
    destruct (walk_capacity g params duration_distributions _ _ _ _ _ _ _ _ _ Hw)
      as [[-> _]|Hle]; [contradiction|exact Hle].
  - intros k ps1 p1 [].
Qed.

Lemma generate_patterns_within_capacity_witness :
  exists out s',
    generate_patterns (stub_generator (fun _ => 30)) first_occurrence_order 100
      [((0%Z, 0%Z, 0%Z), 1)] [(("A", 0%Z), 2); (("B", 0%Z), 1)]%string
      [("A", (3, 1)); ("B", (3, 1))]%string (mkPatternParams 100 2) 0%nat = Ok (out, s') /\
    forall key patterns p, In (key, patterns) out -> In p patterns ->
      p <> [] /\
      exists cards weights s0 total s1,
        walk (stub_generator (fun _ => 30)) (mkPatternParams 100 2)
          [("A", (3, 1)); ("B", (3, 1))]%string 100 cards weights [] 0 s0 =
          Ok ((p, total), s1) /\ total <= max_minutes_per_day (mkPatternParams 100 2).
Proof.
  eexists; eexists; split; [reflexivity|].
  eapply (generate_patterns_within_capacity (stub_generator (fun _ => 30))
            first_occurrence_order 100 [((0%Z, 0%Z, 0%Z), 1)]
            [(("A", 0%Z), 2); (("B", 0%Z), 1)]%string
            [("A", (3, 1)); ("B", (3, 1))]%string (mkPatternParams 100 2) 0%nat).
  - exact first_occurrence_order_ok.
  - reflexivity.
Defined.

(** C4. The walk is not bounded for every random stream: with durations
    [1/2, 1/8, 1/32, ...] and a one-minute day the total never reaches the
    limit, so no number of iterations is enough. *)
Lemma walk_bounded_counterexample :
  ~ exists fuel,
      walk (stub_generator halving) (mkPatternParams 1 1) [("A", (0, 1))]%string fuel
        ["A"]%string [1] [] 0 0%nat <> OutOfFuel.
Proof.
  intros (fuel & Hfuel). apply Hfuel, walk_halving_out_of_fuel.
  cbn [halving]. lra.
Qed.

(** C4. The walk stops after at most [n] accepted draws, so within [n + 1]
    iterations, when every sampled duration is at least some [delta > 0] and
    [max_minutes_per_day <= total + n * delta]; stopping includes leaving
    the loop, passing the limit, and a failing draw or lookup. *)
Theorem walk_bounded {St : Type} (g : Generator St) (params : PatternParams)
    (duration_distributions : DurationDistributions)
    (cards : list OperationCard) (weights : list Q) (delta : Q) :
  0 < delta ->
  (forall s m sd x s', lognormal g s m sd = Some (x, s') -> delta <= x) ->
  forall n fuel sequence total s,
    max_minutes_per_day params <= total + inject_Z (Z.of_nat n) * delta ->
    (n < fuel)%nat ->
    walk g params duration_distributions fuel cards weights sequence total s <> OutOfFuel.
Proof.
  intros Hd Hlog n fuel. revert n. induction fuel as [|fuel IH];
    intros n sq t s Hmax Hn; [lia|].
  cbn [walk]. destruct (Qltb t (max_minutes_per_day params)) eqn:Et;
    [|unfold ret; discriminate].
  apply Qltb_true_lt in Et.
  unfold bind at 1, rng_choice. destruct (choice g s weights) as [[i s1]|]; [|discriminate].
  destruct (nth_error cards i) as [card|]; [|unfold raise; discriminate].
  destruct (dict_get duration_distributions card) as [[ml sd]|]; [|unfold raise; discriminate].
  unfold bind, rng_lognormal. destruct (lognormal g s1 ml sd) as [[d s2]|] eqn:El;
    [|discriminate].
  destruct (Qltb _ (t + d)); [unfold ret; discriminate|].
  pose proof (Hlog _ _ _ _ _ El) as Hdd.
  destruct n as [|n].
  - exfalso. change (inject_Z (Z.of_nat 0)) with 0 in Hmax. lra.
  - apply (IH n); [|lia]. rewrite inject_Z_succ in Hmax. lra.
Qed.

Lemma walk_bounded_witness :
  walk (stub_generator (fun _ => 30)) (mkPatternParams 100 2) [("A", (3, 1))]%string 5
    ["A"]%string [1] [] 0 0%nat <> OutOfFuel.
Proof.
  refine (walk_bounded (stub_generator (fun _ => 30)) (mkPatternParams 100 2)
           [("A", (3, 1))]%string ["A"]%string [1] 30 _ _ 4 5 [] 0 0%nat _ _).
  - reflexivity.
  - intros s m sd x s' H. simpl in H. injection H as <- _. apply Qle_refl.
  - vm_compute. discriminate.
  - lia.
Defined.










(** * Further properties of the generators *)

(** ** [generate_schedule]: keys, surgeons, threshold and errors *)

Lemma surgeon_workloads_keys_aux (fd : FrequencyData) acc x :
  In x (map fst (fold_left
    (fun acc '((_, surgeon), freq) =>
       dict_set acc surgeon (dict_get_default acc surgeon 0 + freq)) fd acc)) <->
  In x (map fst acc) \/ exists card freq, In ((card, x), freq) fd.
Proof.
  revert acc. induction fd as [|[[c y] f] fd IH]; intros acc; simpl.
  - split; [auto|intros [H|(? & ? & [])]; exact H].
  - rewrite IH, dict_keys_set. split.
    + intros [[->|H]|(c' & f' & H)]; [right; exists c, f; auto|auto|right; exists c', f'; auto].
    + intros [H|(c' & f' & [Heq|H])]; [auto|injection Heq as -> -> ->; auto|right; eauto].
Qed.

(** The surgeons of [surgeon_workloads] are those of the frequency data. *)
Lemma surgeon_workloads_keys (fd : FrequencyData) x :
  In x (map fst (surgeon_workloads fd)) <-> exists card freq, In ((card, x), freq) fd.
Proof.
  unfold surgeon_workloads. rewrite surgeon_workloads_keys_aux. simpl.
  split; [intros [[]|H]; exact H|auto].
Qed.

Lemma room_day_pairs_In rooms weekdays r d :
  In (r, d) (room_day_pairs rooms weekdays) <-> In r rooms /\ In d weekdays.
Proof.
  unfold room_day_pairs. rewrite in_flat_map. split.
  - intros (d' & Hd & Hin). apply in_map_iff in Hin as (r' & Heq & Hr).
    injection Heq as -> ->. auto.
  - intros [Hr Hd]. exists d. split; [exact Hd|]. apply in_map_iff. eauto.
Qed.

Lemma store_weights_In (acc : Schedule) x pw k w :
  In (k, w) (store_weights acc x pw) ->
  In (k, w) acc \/ exists r d, k = (x, r, d) /\ In ((r, d), w) pw /\ 0 < w.
Proof.
  revert acc. induction pw as [|[[r d] w'] pw IH]; intros acc; simpl; [auto|].
  intros Hin. destruct (IH _ Hin) as [Hin'|(r' & d' & -> & Hp & Hw)];
    [|right; exists r', d'; auto].
  destruct (Qltb 0 w') eqn:E; [|auto].
  apply dict_set_In in Hin' as [[-> ->]|Hin']; [|auto].
  right. exists r, d. split; [reflexivity|split; [auto|apply Qltb_true_lt, E]].
Qed.

Lemma store_weights_keys_mono (acc : Schedule) x pw k :
  In k (map fst acc) -> In k (map fst (store_weights acc x pw)).
Proof.
  revert acc. induction pw as [|[[r d] w] pw IH]; intros acc Hk; simpl; [exact Hk|].
  apply IH. destruct (Qltb 0 w); [|exact Hk]. apply dict_keys_set. auto.
Qed.

Lemma store_weights_has (acc : Schedule) x pw r d w :
  In ((r, d), w) pw -> 0 < w -> In (x, r, d) (map fst (store_weights acc x pw)).
Proof.
  revert acc. induction pw as [|[[r' d'] w'] pw IH]; intros acc Hin Hw; simpl;
    [destruct Hin|].
  destruct Hin as [Heq|Hin]; [|apply IH; assumption].
  injection Heq as -> -> ->. apply store_weights_keys_mono.
  rewrite (Qlt_Qltb 0 w Hw). apply dict_keys_set. auto.
Qed.

Lemma surgeon_weights_not_out_of_fuel {St : Type} (g : Generator St) params n w s :
  surgeon_weights g params n w s <> OutOfFuel.
Proof.
  unfold surgeon_weights, bind, ret, raise, rng_dirichlet, rng_random.
  destruct (Qeq_bool _ 0); [discriminate|].
  destruct (dirichlet g s _) as [[ws s1]|]; [|discriminate].
  destruct (Qltb 0 _); [|discriminate].
  destruct (Qltb 0 _); [discriminate|].
  destruct (random g s1 n) as [r s2]. destruct (argmax r) as [i|]; [|discriminate].
  destruct (Nat.ltb i n); discriminate.
Qed.

Lemma Qsum_apply_threshold thr l :
  Forall (Qle 0) l -> Qsum (apply_threshold thr l) <= Qsum l.
Proof.
  induction 1 as [|a l Ha Hl IH]; simpl; [apply Qle_refl|].
  destruct (Qltb a thr); lra.
Qed.

Lemma Qsum_pos_In l : Forall (Qle 0) l -> 0 < Qsum l -> exists w, In w l /\ 0 < w.
Proof.
  induction 1 as [|a l Ha Hl IH]; simpl; [intros H; destruct (Qlt_irrefl 0 H)|].
  intros Hs. destruct (Qlt_le_dec 0 a) as [Hpos|Hle]; [exists a; auto|].
  destruct IH as (w & Hw & Hpos); [lra|eauto].
Qed.

Lemma in_combine_length {A B} (l1 : list A) (l2 : list B) b :
  List.length l1 = List.length l2 -> In b l2 -> exists a, In (a, b) (combine l1 l2).
Proof.
  revert l2. induction l1 as [|a l1 IH]; intros [|b' l2] Hl Hin; simpl in *;
    try discriminate; [destruct Hin|].
  destruct Hin as [<-|Hin]; [eauto|]. destruct (IH l2) as (a' & H); [lia|exact Hin|eauto].
Qed.

Section ScheduleLoopMore.
Context {St : Type} (g : Generator St) (params : ScheduleParams).

(** Every entry the loop adds belongs to one of its surgeons and one of the
    slots, and carries a positive weight of that surgeon's weight vector. *)
Lemma schedule_loop_In wl pairs sched0 s final s' k w :
  schedule_loop g params wl pairs sched0 s = Ok (final, s') -> In (k, w) final ->
  In (k, w) sched0 \/
  exists x wk r d ws s0 s1, k = (x, r, d) /\ In (x, wk) wl /\ In (r, d) pairs /\ 0 < w /\
    surgeon_weights g params (List.length pairs) wk s0 = Ok (ws, s1) /\ In w ws.
Proof.
  revert sched0 s. induction wl as [|[x wk] rest IH]; intros sched0 s; simpl.
  - unfold ret. injection 1 as -> _. auto.
  - unfold bind.
    destruct (surgeon_weights g params (List.length pairs) wk s) as [[ws s1]| |] eqn:Hw;
      try discriminate.
    intros Hrun Hin. destruct (IH _ _ Hrun Hin) as [Hin'|H];
      [|right; destruct H as (x' & wk' & r & d & ws' & s0' & s1' & H1 & H2 & H3);
          exists x', wk', r, d, ws', s0', s1'; auto].
    apply store_weights_In in Hin' as [Hin'|(r & d & -> & Hc & Hpos)]; [auto|].
    right. exists x, wk, r, d, ws, s, s1. repeat split; auto.
    + eapply in_combine_l, Hc.
    + eapply in_combine_r, Hc.
Qed.

Lemma schedule_loop_keys_mono wl pairs sched0 s final s' k :
  schedule_loop g params wl pairs sched0 s = Ok (final, s') ->
  In k (map fst sched0) -> In k (map fst final).
Proof.
  revert sched0 s. induction wl as [|[x wk] rest IH]; intros sched0 s; simpl.
  - unfold ret. injection 1 as -> _. auto.
  - unfold bind.
    destruct (surgeon_weights g params (List.length pairs) wk s) as [[ws s1]| |];
      try discriminate.
    intros Hrun Hk. eapply IH; [exact Hrun|]. apply store_weights_keys_mono, Hk.
Qed.

(** With valid draws every surgeon of the loop gets at least one key. *)
Lemma schedule_loop_covers wl pairs sched0 s final s' x wk :
  dirichlet_valid g -> random_length_ok g ->
  schedule_loop g params wl pairs sched0 s = Ok (final, s') -> In (x, wk) wl ->
  exists r d, In (x, r, d) (map fst final).
Proof.
  intros Hd Hr. revert sched0 s. induction wl as [|[y wy] rest IH]; intros sched0 s; simpl;
    [intros _ []|].
  unfold bind.
  destruct (surgeon_weights g params (List.length pairs) wy s) as [[ws s1]| |] eqn:Hw;
    try discriminate.
  intros Hrun [Heq|Hin]; [|eapply IH; eassumption].
  injection Heq as -> ->.
  destruct (surgeon_weights_valid g params _ _ _ _ _ Hd Hr Hw) as (Hlen & Hnn & Hsum).
  destruct (Qsum_pos_In ws Hnn) as (w & Hin & Hpos); [rewrite Hsum; reflexivity|].
  destruct (in_combine_length pairs ws w) as ([r d] & Hc); [auto|exact Hin|].
  exists r, d. eapply schedule_loop_keys_mono; [exact Hrun|].
  eapply store_weights_has; eassumption.
Qed.

(** A surgeon whose workload zeroes the denominator makes the loop raise. *)
Lemma schedule_loop_zero_denominator wl pairs sched0 s x wk :
  In (x, wk) wl -> 1 + workload_scaling params * wk == 0 ->
  exists e, schedule_loop g params wl pairs sched0 s = Raise e.
Proof.
  intros Hin H0. revert sched0 s. induction wl as [|[y wy] rest IH]; intros sched0 s;
    simpl; [destruct Hin|].
  unfold bind. destruct Hin as [Heq|Hin].
  - injection Heq as -> ->. unfold surgeon_weights, raise.
    rewrite (proj2 (Qeq_bool_iff _ _) H0). eauto.
  - destruct (surgeon_weights g params (List.length pairs) wy s) as [[ws s1]| e |] eqn:Hw;
      [apply IH, Hin|eauto|].
    exfalso. exact (surgeon_weights_not_out_of_fuel g params _ _ _ Hw).
Qed.
End ScheduleLoopMore.

(** With a threshold in (0, 1] and valid draws, every positive weight of a
    surgeon's vector is at least the threshold. *)
Lemma surgeon_weights_threshold {St : Type} (g : Generator St) params n wk s ws s' :
  dirichlet_valid g -> 0 < sparsity_threshold params -> sparsity_threshold params <= 1 ->
  surgeon_weights g params n wk s = Ok (ws, s') ->
  forall w, In w ws -> 0 < w -> sparsity_threshold params <= w.
Proof.
  intros Hd Hthr Hthr1. set (thr := sparsity_threshold params) in *.
  unfold surgeon_weights, bind, ret, raise, rng_dirichlet, rng_random.
  destruct (Qeq_bool _ 0); [discriminate|].
  destruct (dirichlet g s _) as [[w0 s1]|] eqn:Hw; [|discriminate].
  destruct (Hd _ _ _ _ Hw) as (_ & Hnn & Hsum).
  fold thr. rewrite (Qlt_Qltb 0 thr Hthr).
  set (tw := apply_threshold thr w0).
  destruct (Qltb 0 (Qsum tw)) eqn:Htot.
  - apply Qltb_true_lt in Htot. injection 1 as <- _.
    intros w Hin Hpos. apply in_map_iff in Hin as (a & <- & Ha).
    unfold tw, apply_threshold in Ha. apply in_map_iff in Ha as (b & Hb & Hb0).
    assert (Hle1 : Qsum tw <= 1).
    { rewrite <- Hsum. apply Qsum_apply_threshold, Hnn. }
    destruct (Qltb b thr) eqn:Eb.
    + subst a. unfold Qdiv in Hpos. rewrite Qmult_0_l in Hpos. destruct (Qlt_irrefl 0 Hpos).
    + subst a. apply Qltb_false_le in Eb.
      apply Qle_shift_div_l; [exact Htot|].
      apply (Qle_trans _ (thr * 1)); [apply Qmult_le_l; lra|lra].
  - destruct (random g s1 n) as [r s2]. destruct (argmax r) as [i|]; [|cbn; discriminate].
    destruct (Nat.ltb i n); cbn; [|discriminate]. injection 1 as <- _.
    intros w Hin Hpos. unfold one_hot in Hin. apply in_map_iff in Hin as (j & <- & _).
    destruct (Nat.eqb j i); [exact Hthr1|destruct (Qlt_irrefl 0 Hpos)].
Qed.

(** Every key [(surgeon, room, day)] of a schedule built by
    [generate_schedule] has its room among [rooms], its day among [weekdays]
    and its surgeon among those of the frequency data, and its weight is
    positive; rooms and weekdays may repeat. *)
Theorem generate_schedule_keys_in_range {St : Type} (g : Generator St) params
    (fd : FrequencyData) rooms weekdays s sched s' :
  generate_schedule g params fd rooms weekdays s = Ok (sched, s') ->
  forall surgeon room day w, In ((surgeon, room, day), w) sched ->
    In room rooms /\ In day weekdays /\ 0 < w /\
    exists card freq, In ((card, surgeon), freq) fd.
Proof.
  unfold generate_schedule. destruct (Nat.eqb _ 0); [discriminate|]. intros Hrun.
  intros x r d w Hin.
  destruct (schedule_loop_In g params _ _ _ _ _ _ _ _ Hrun Hin)
    as [[]|(x' & wk & r' & d' & ws & s0 & s1 & Heq & Hwl & Hp & Hpos & _)].
  injection Heq as -> -> ->. apply room_day_pairs_In in Hp as [Hr Hd].
  repeat split; auto. apply surgeon_workloads_keys, in_map_iff. exists (x', wk). auto.
Qed.

(** With valid numpy draws, the surgeons of the schedule are exactly the
    surgeons of the frequency data, whether or not rooms or weekdays repeat. *)
Theorem generate_schedule_surgeons_exact {St : Type} (g : Generator St) params
    (fd : FrequencyData) rooms weekdays s sched s' :
  dirichlet_valid g -> random_length_ok g ->
  generate_schedule g params fd rooms weekdays s = Ok (sched, s') ->
  forall surgeon, In surgeon (schedule_surgeons sched) <->
    exists card freq, In ((card, surgeon), freq) fd.
Proof.
  intros Hd Hr. unfold generate_schedule. destruct (Nat.eqb _ 0); [discriminate|].
  intros Hrun x. split.
  - unfold schedule_surgeons. intros Hx. apply in_map_iff in Hx as ([[[x' r] d] w] & <- & Hin).
    destruct (schedule_loop_In g params _ _ _ _ _ _ _ _ Hrun Hin)
      as [[]|(x1 & wk & r' & d' & ws & s0 & s1 & Heq & Hwl & _)].
    injection Heq as -> -> ->. apply surgeon_workloads_keys, in_map_iff. exists (x1, wk). auto.
  - intros Hx. apply surgeon_workloads_keys, in_map_iff in Hx as ([x' wk] & Heq & Hin).
    simpl in Heq. subst x'.
    destruct (schedule_loop_covers g params _ _ _ _ _ _ _ _ Hd Hr Hrun Hin) as (r & d & Hk).
    eapply schedule_key_surgeon, Hk.
Qed.

(** With a sparsity threshold in (0, 1] and valid Dirichlet draws, every
    weight stored in the schedule is at least the threshold. *)
Theorem generate_schedule_respects_threshold {St : Type} (g : Generator St) params
    (fd : FrequencyData) rooms weekdays s sched s' :
  dirichlet_valid g -> 0 < sparsity_threshold params -> sparsity_threshold params <= 1 ->
  generate_schedule g params fd rooms weekdays s = Ok (sched, s') ->
  forall k w, In (k, w) sched -> sparsity_threshold params <= w.
Proof.
  intros Hd Ht Ht1. unfold generate_schedule. destruct (Nat.eqb _ 0); [discriminate|].
  intros Hrun k w Hin.
  destruct (schedule_loop_In g params _ _ _ _ _ _ _ _ Hrun Hin)
    as [[]|(x & wk & r & d & ws & s0 & s1 & _ & _ & _ & Hpos & Hw & Hws)].
  exact (surgeon_weights_threshold g params _ _ _ _ _ Hd Ht Ht1 Hw w Hws Hpos).
Qed.

(** A surgeon whose summed workload [w] makes [1 + workload_scaling * w]
    zero (possible only through negative frequencies, since
    [workload_scaling >= 0]) makes [generate_schedule] raise instead of
    returning a schedule. *)
Theorem generate_schedule_zero_denominator {St : Type} (g : Generator St) params
    (fd : FrequencyData) rooms weekdays s surgeon w :
  In (surgeon, w) (surgeon_workloads fd) -> 1 + workload_scaling params * w == 0 ->
  exists e, generate_schedule g params fd rooms weekdays s = Raise e.
Proof.
  intros Hin H0. unfold generate_schedule, raise.
  destruct (Nat.eqb _ 0); [eauto|].
  eapply schedule_loop_zero_denominator; eassumption.
Qed.

Lemma generate_schedule_keys_in_range_witness :
  exists sched s',
    generate_schedule (stub_generator (fun _ => 0)) (mkScheduleParams 1 (1 # 2) 0)
      [(("A", 0%Z), 2); (("B", 1%Z), 1)]%string [0%Z; 0%Z] [3%Z] 0%nat = Ok (sched, s') /\
    forall surgeon room day w, In ((surgeon, room, day), w) sched ->
      In room [0%Z; 0%Z] /\ In day [3%Z] /\ 0 < w /\
      exists card freq, In ((card, surgeon), freq) [(("A", 0%Z), 2); (("B", 1%Z), 1)]%string.
Proof.
  eexists; eexists; split; [reflexivity|].
  apply (generate_schedule_keys_in_range (stub_generator (fun _ => 0))
           (mkScheduleParams 1 (1 # 2) 0) [(("A", 0%Z), 2); (("B", 1%Z), 1)]%string
           [0%Z; 0%Z] [3%Z] 0%nat _ 2%nat).
  reflexivity.
Defined.

Lemma generate_schedule_surgeons_exact_witness :
  exists sched s',
    generate_schedule (stub_generator (fun _ => 0)) (mkScheduleParams 1 (1 # 2) (1 # 100))
      [(("A", 0%Z), 2); (("B", 0%Z), 1); (("C", 4%Z), 1)]%string [0%Z; 1%Z] [0%Z; 0%Z] 0%nat
    = Ok (sched, s') /\
    forall surgeon, In surgeon (schedule_surgeons sched) <->
      exists card freq,
        In ((card, surgeon), freq) [(("A", 0%Z), 2); (("B", 0%Z), 1); (("C", 4%Z), 1)]%string.
Proof.
  eexists; eexists; split; [reflexivity|].
  eapply (generate_schedule_surgeons_exact (stub_generator (fun _ => 0))
           (mkScheduleParams 1 (1 # 2) (1 # 100))
           [(("A", 0%Z), 2); (("B", 0%Z), 1); (("C", 4%Z), 1)]%string
           [0%Z; 1%Z] [0%Z; 0%Z] 0%nat).
  - exact (stub_dirichlet_valid _).
  - exact (stub_random_length_ok _).
  - reflexivity.
Defined.

Lemma generate_schedule_respects_threshold_witness :
  exists sched s',
    generate_schedule (stub_generator (fun _ => 0)) (mkScheduleParams 1 0 (3 # 4))
      [(("A", 0%Z), 1)]%string [0%Z; 1%Z] [0%Z] 0%nat = Ok (sched, s') /\
    forall k w, In (k, w) sched -> 3 # 4 <= w.
Proof.
  eexists; eexists; split; [reflexivity|].
  eapply (generate_schedule_respects_threshold (stub_generator (fun _ => 0))
           (mkScheduleParams 1 0 (3 # 4)) [(("A", 0%Z), 1)]%string [0%Z; 1%Z] [0%Z] 0%nat).
  - exact (stub_dirichlet_valid _).
  - reflexivity.
  - discriminate.
  - reflexivity.
Defined.

Lemma generate_schedule_zero_denominator_witness :
  exists e, generate_schedule (stub_generator (fun _ => 0)) (mkScheduleParams 1 (1 # 2) 0)
    [(("A", 0%Z), -2)]%string [0%Z] [0%Z] 0%nat = Raise e.
Proof.
  apply (generate_schedule_zero_denominator (stub_generator (fun _ => 0))
           (mkScheduleParams 1 (1 # 2) 0) [(("A", 0%Z), -2)]%string [0%Z] [0%Z] 0%nat
           0%Z (0 + -2)).
  - left. reflexivity.
  - reflexivity.
Defined.

(** ** [generate_patterns]: edge cases, bucket sizes and card provenance *)

Lemma dict_get_NoDup_In {K V} `{EqDec K} (d : list (K * V)) k v :
  NoDup (map fst d) -> In (k, v) d -> dict_get d k = Some v.
Proof.
  induction d as [|[k1 v1] d IH]; simpl; [intros _ []|].
  intros Hnd. inversion Hnd as [|? ? Hn Hnd']; subst.
  destruct (eq_dec k k1) as [->|Hne]; intros [Heq|Hin].
  - congruence.
  - exfalso. apply Hn. apply in_map_iff. exists (k1, v). auto.
  - congruence.
  - apply IH; assumption.
Qed.

Section PatternsMore.
Context {St : Type} (g : Generator St) (params : PatternParams)
  (duration_distributions : DurationDistributions).

(** A walk whose day has no room stops before any draw. *)
Lemma walk_nonpositive_day fuel cards weights s :
  max_minutes_per_day params <= 0 ->
  walk g params duration_distributions (S fuel) cards weights [] 0 s = Ok (([], 0), s).
Proof.
  intros Hmax. simpl. rewrite (Qle_Qltb_false 0 _ Hmax). reflexivity.
Qed.

Lemma sample_patterns_no_draw n fuel cards weights key pd s :
  n = 0%nat \/ (max_minutes_per_day params <= 0 /\ (0 < fuel)%nat) ->
  sample_patterns g params duration_distributions n fuel cards weights key pd s = Ok (pd, s).
Proof.
  intros [->|[Hmax Hf]]; [reflexivity|].
  destruct fuel as [|fuel]; [lia|].
  induction n as [|n IH]; [reflexivity|]. cbn [sample_patterns]. unfold bind.
  rewrite walk_nonpositive_day by exact Hmax. exact IH.
Qed.

Lemma buckets_loop_no_draw fuel scw buckets pd s :
  num_patterns_per_room_day params = 0%nat \/
  (max_minutes_per_day params <= 0 /\ (0 < fuel)%nat) ->
  buckets_loop g params duration_distributions fuel scw buckets pd s = Ok (pd, s).
Proof.
  intros H. revert pd. induction buckets as [|[key sl] rest IH]; intros pd; [reflexivity|].
  simpl. unfold bind.
  replace (process_bucket g params duration_distributions fuel scw key sl pd s)
    with (@Ok (PatternData * St) (pd, s)); [apply IH|].
  unfold process_bucket. destruct sl; [reflexivity|].
  destruct (combined_card_weights_of _ _); [reflexivity|].
  symmetry. apply sample_patterns_no_draw, H.
Qed.

Lemma sample_patterns_NoDup n fuel cards weights key pd s pd' s' :
  NoDup (map fst pd) ->
  sample_patterns g params duration_distributions n fuel cards weights key pd s =
    Ok (pd', s') -> NoDup (map fst pd').
Proof.
  revert pd s. induction n as [|n IH]; intros pd s Hnd; simpl.
  - unfold ret. injection 1 as -> _. exact Hnd.
  - unfold bind.
    destruct (walk g params duration_distributions fuel cards weights [] 0 s)
      as [[[sq t] s1]| |]; try discriminate.
    apply IH. destruct sq; [exact Hnd|apply dict_keys_set_NoDup, Hnd].
Qed.

(** [n] samples add at most [n] patterns under their key and touch no other key. *)
Lemma sample_patterns_get n fuel cards weights key pd s pd' s' :
  sample_patterns g params duration_distributions n fuel cards weights key pd s =
    Ok (pd', s') ->
  (forall k, k <> key -> dict_get pd' k = dict_get pd k) /\
  (List.length (dict_get_default pd' key []) <=
   List.length (dict_get_default pd key []) + n)%nat.
Proof.
  revert pd s. induction n as [|n IH]; intros pd s; simpl.
  - unfold ret. injection 1 as -> _. split; [reflexivity|lia].
  - unfold bind.
    destruct (walk g params duration_distributions fuel cards weights [] 0 s)
      as [[[sq t] s1]| |]; try discriminate.
    intros Hrun. destruct (IH _ _ Hrun) as [H1 H2]. simpl in H1, H2. destruct sq as [|c sq].
    + split; [exact H1|lia].
    + split.
      * intros k Hk. rewrite H1 by exact Hk. rewrite dict_get_set.
        destruct (eq_dec k key); [contradiction|reflexivity].
      * rewrite dict_get_default_set in H2. destruct (eq_dec key key); [|congruence].
        rewrite length_app in H2. simpl in H2. lia.
Qed.

Lemma process_bucket_get fuel scw key sl pd s pd' s' :
  NoDup (map fst pd) ->
  process_bucket g params duration_distributions fuel scw key sl pd s = Ok (pd', s') ->
  NoDup (map fst pd') /\
  (forall k, k <> key -> dict_get pd' k = dict_get pd k) /\
  (List.length (dict_get_default pd' key []) <=
   List.length (dict_get_default pd key []) + num_patterns_per_room_day params)%nat.
Proof.
  intros Hnd. unfold process_bucket.
  destruct sl; [unfold ret; injection 1 as -> _; split; [exact Hnd|split; [auto|lia]]|].
  destruct (combined_card_weights_of _ _);
    [unfold ret; injection 1 as -> _; split; [exact Hnd|split; [auto|lia]]|].
  intros Hrun. split; [eapply sample_patterns_NoDup; eassumption|].
  eapply sample_patterns_get; eassumption.
Qed.

Lemma buckets_loop_sizes fuel scw buckets pd s pd' s' :
  NoDup (map fst buckets) -> NoDup (map fst pd) ->
  (forall k, In k (map fst buckets) -> dict_get pd k = None) ->
  (forall k, List.length (dict_get_default pd k []) <= num_patterns_per_room_day params)%nat ->
  buckets_loop g params duration_distributions fuel scw buckets pd s = Ok (pd', s') ->
  NoDup (map fst pd') /\
  forall k, (List.length (dict_get_default pd' k []) <= num_patterns_per_room_day params)%nat.
Proof.
  revert pd s. induction buckets as [|[key sl] rest IH]; intros pd s Hnb Hnd Hfresh Hlen; simpl.
  - unfold ret. injection 1 as -> _. auto.
  - unfold bind.
    destruct (process_bucket g params duration_distributions fuel scw key sl pd s)
      as [[pd1 s1]| |] eqn:Hb; try discriminate.
    simpl in Hnb. inversion Hnb as [|? ? Hkey Hnb']; subst.
    destruct (process_bucket_get _ _ _ _ _ _ _ _ Hnd Hb) as (Hnd1 & Hoth & Hkl).
    apply IH; [exact Hnb'|exact Hnd1| |].
    + intros k Hk. rewrite Hoth by (intros ->; contradiction). apply Hfresh. simpl. auto.
    + intros k. destruct (eq_dec k key) as [->|Hne].
      * unfold dict_get_default at 2 in Hkl. rewrite (Hfresh key (or_introl eq_refl)) in Hkl.
        simpl in Hkl. lia.
      * unfold dict_get_default. rewrite Hoth by exact Hne. apply Hlen.
Qed.

(** The cards a walk appends come from the cards it draws from. *)
Lemma walk_cards fuel cards weights sq0 t0 s sq t s' :
  walk g params duration_distributions fuel cards weights sq0 t0 s = Ok ((sq, t), s') ->
  forall c, In c sq -> In c sq0 \/ In c cards.
Proof.
  revert sq0 t0 s. induction fuel as [|fuel IH]; intros sq0 t0 s; simpl; [discriminate|].
  destruct (Qltb t0 _); [|unfold ret; injection 1 as -> -> _; auto].
  unfold bind, rng_choice. destruct (choice g s weights) as [[i s1]|]; [|discriminate].
  destruct (nth_error cards i) as [card|] eqn:Hc; [|unfold raise; discriminate].
  destruct (dict_get duration_distributions card) as [[ml sd]|];
    [|unfold raise; discriminate].
  unfold rng_lognormal. destruct (lognormal g s1 ml sd) as [[d s2]|]; [|discriminate].
  destruct (Qltb _ (t0 + d)).
  - unfold ret. injection 1 as -> -> _. auto.
  - intros Hrun c Hin. destruct (IH _ _ _ Hrun c Hin) as [H|H]; [|auto].
    apply in_app_iff in H as [H|[<-|[]]]; [auto|]. right. eapply nth_error_In, Hc.
Qed.

Section KeyedPatterns.
Variable P : Weekday * Room -> Pattern -> Prop.
Variable fuel : nat.

Lemma sample_patterns_keyed n cards weights key pd s pd' s' :
  (forall s0 sq t s1,
     walk g params duration_distributions fuel cards weights [] 0 s0 = Ok ((sq, t), s1) ->
     sq <> [] -> P key sq) ->
  (forall k ps p, In (k, ps) pd -> In p ps -> P k p) ->
  sample_patterns g params duration_distributions n fuel cards weights key pd s =
    Ok (pd', s') ->
  forall k ps p, In (k, ps) pd' -> In p ps -> P k p.
Proof.
  intros HP. revert pd s. induction n as [|n IH]; intros pd s Hpd; simpl.
  - unfold ret. injection 1 as -> _. exact Hpd.
  - unfold bind.
    destruct (walk g params duration_distributions fuel cards weights [] 0 s)
      as [[[sq t] s1]| |] eqn:Hw; try discriminate.
    simpl. apply IH. destruct sq as [|c sq]; [exact Hpd|].
    intros k ps p Hin Hp. apply dict_set_In in Hin as [[-> ->]|Hin]; [|eauto].
    apply in_app_iff in Hp as [Hp|[<-|[]]].
    + unfold dict_get_default in Hp. destruct (dict_get pd key) as [ps|] eqn:Hg; [|destruct Hp].
      eapply Hpd; [apply dict_get_In, Hg|exact Hp].
    + eapply HP; [exact Hw|discriminate].
Qed.

Lemma buckets_loop_keyed scw buckets pd s pd' s' :
  (forall key sl, In (key, sl) buckets ->
     let combined := combined_card_weights_of scw (normalized_scores_of (raw_scores_of sl)) in
     forall s0 sq t s1,
       walk g params duration_distributions fuel (map fst combined) (map snd combined) [] 0 s0
         = Ok ((sq, t), s1) -> sq <> [] -> P key sq) ->
  (forall k ps p, In (k, ps) pd -> In p ps -> P k p) ->
  buckets_loop g params duration_distributions fuel scw buckets pd s = Ok (pd', s') ->
  forall k ps p, In (k, ps) pd' -> In p ps -> P k p.
Proof.
  revert pd s. induction buckets as [|[key sl] rest IH]; intros pd s HP Hpd; simpl.
  - unfold ret. injection 1 as -> _. exact Hpd.
  - unfold bind.
    destruct (process_bucket g params duration_distributions fuel scw key sl pd s)
      as [[pd1 s1]| |] eqn:Hb; try discriminate.
    apply IH; [intros key' sl' Hin; apply HP; right; exact Hin|].
    unfold process_bucket in Hb. destruct sl as [|x sl];
      [unfold ret in Hb; injection Hb as -> _; exact Hpd|].
    cbv zeta in Hb. destruct (combined_card_weights_of _ _) as [|c cs] eqn:Hc;
      [unfold ret in Hb; injection Hb as -> _; exact Hpd|].
    eapply sample_patterns_keyed; [|exact Hpd|exact Hb].
    intros s0 sq t s2 Hw Hne. eapply (HP key (x :: sl) (or_introl eq_refl)); [|exact Hne].
    cbv zeta. rewrite Hc. exact Hw.
Qed.
End KeyedPatterns.
End PatternsMore.

Lemma raw_scores_keys (sl : list (Surgeon * Q)) x :
  In x (map fst (raw_scores_of sl)) -> In x (map fst sl).
Proof.
  unfold raw_scores_of.
  enough (H : forall acc, In x (map fst (fold_left (fun acc '(s, sc) => dict_set acc s sc) sl acc))
                -> In x (map fst acc) \/ In x (map fst sl)) by (intros Hx; destruct (H [] Hx) as [[]|]; auto).
  induction sl as [|[y sc] sl IH]; intros acc Hx; simpl in *; [auto|].
  destruct (IH _ Hx) as [H|H]; [|auto]. apply dict_keys_set in H as [->|H]; auto.
Qed.

Lemma normalized_scores_keys raw : map fst (normalized_scores_of raw) = map fst raw.
Proof.
  unfold normalized_scores_of. destruct (Qeq_bool _ 0); rewrite map_map;
    apply map_ext; intros [x sc]; reflexivity.
Qed.

Lemma combined_inner_keys (l acc : list (OperationCard * Q)) nw c :
  In c (map fst (fold_left
    (fun combined '(card, weight) =>
       dict_set combined card (dict_get_default combined card 0 + nw * weight)) l acc)) ->
  In c (map fst acc) \/ In c (map fst l).
Proof.
  revert acc. induction l as [|[card w] l IH]; intros acc Hc; simpl in *; [auto|].
  destruct (IH _ Hc) as [H|H]; [|auto]. apply dict_keys_set in H as [->|H]; auto.
Qed.

Lemma combined_keys scw ns c :
  In c (map fst (combined_card_weights_of scw ns)) ->
  exists x nw, In (x, nw) ns /\ In c (map fst (dict_get_default scw x [])).
Proof.
  unfold combined_card_weights_of.
  enough (H : forall acc, In c (map fst (fold_left
    (fun combined '(surgeon, norm_weight) =>
       fold_left
         (fun combined '(card, weight) =>
            dict_set combined card (dict_get_default combined card 0 + norm_weight * weight))
         (dict_get_default scw surgeon []) combined) ns acc)) ->
    In c (map fst acc) \/
    exists x nw, In (x, nw) ns /\ In c (map fst (dict_get_default scw x [])))
    by (intros Hc; destruct (H [] Hc) as [[]|]; auto).
  induction ns as [|[x nw] ns IH]; intros acc Hc; simpl in *; [auto|].
  destruct (IH _ Hc) as [H|(x' & nw' & Hin & H)]; [|right; exists x', nw'; auto].
  apply combined_inner_keys in H as [H|H]; [auto|right; exists x, nw; auto].
Qed.

Lemma room_day_to_surgeons_In (schedule : Schedule) day room sl x sc :
  In ((day, room), sl) (room_day_to_surgeons_of schedule) -> In (x, sc) sl ->
  In ((x, room, day), sc) schedule.
Proof.
  unfold room_day_to_surgeons_of.
  enough (H : forall (l : Schedule) acc, incl l schedule ->
    (forall d r sl x sc, In ((d, r), sl) acc -> In (x, sc) sl -> In ((x, r, d), sc) schedule) ->
    (forall d r sl x sc, In ((d, r), sl) (fold_left
      (fun acc '((surgeon, room, day), score) =>
         dict_set acc (day, room) (dict_get_default acc (day, room) [] ++ [(surgeon, score)]))
      l acc) -> In (x, sc) sl -> In ((x, r, d), sc) schedule))
    by (apply (H schedule []); [apply incl_refl|intros ? ? ? ? ? []]).
  induction l as [|[[[y r] d] w] sched IH]; intros acc Hincl Hacc; simpl; [exact Hacc|].
  apply IH; [intros a Ha; apply Hincl; right; exact Ha|].
  intros d' r' sl' x' sc' Hin Hx. apply dict_set_In in Hin as [[Heq ->]|Hin]; [|eauto].
  injection Heq as -> ->. apply in_app_iff in Hx as [Hx|[Heq|[]]].
  - unfold dict_get_default in Hx. destruct (dict_get acc (d, r)) eqn:Hg; [|destruct Hx].
    eapply Hacc; [apply dict_get_In, Hg|exact Hx].
  - injection Heq as -> ->. apply Hincl. left. reflexivity.
Qed.

Lemma surgeon_card_weights_In (fd : FrequencyData) x cd c :
  In (x, cd) (surgeon_card_weights_of fd) -> In c (map fst cd) ->
  exists freq, In ((c, x), freq) fd.
Proof.
  unfold surgeon_card_weights_of.
  enough (H : forall acc, In (x, cd) (fold_left
    (fun acc '((card, surgeon), freq) =>
       let card_dict := dict_get_default acc surgeon [] in
       dict_set acc surgeon
         (dict_set card_dict card (dict_get_default card_dict card 0 + freq))) fd acc) ->
    In c (map fst cd) ->
    (exists cd0, In (x, cd0) acc /\ In c (map fst cd0)) \/ exists freq, In ((c, x), freq) fd)
    by (intros Hin Hc; destruct (H [] Hin Hc) as [(? & [] & _)|]; auto).
  revert cd. induction fd as [|[[card y] f] fd IH]; intros cd acc Hin Hc; simpl in *;
    [left; eauto|].
  destruct (IH _ _ Hin Hc) as [(cd0 & Hin0 & Hc0)|(f' & Hf)]; [|right; eauto].
  apply dict_set_In in Hin0 as [[-> ->]|Hin0]; [|left; eauto].
  apply dict_keys_set in Hc0 as [->|Hc0]; [right; eauto|].
  unfold dict_get_default in Hc0. destruct (dict_get acc y) as [cd1|] eqn:Hg; [|destruct Hc0].
  left. exists cd1. split; [apply dict_get_In, Hg|exact Hc0].
Qed.

Lemma normalize_card_weights_In scw x cd c :
  In (x, cd) (normalize_card_weights scw) -> In c (map fst cd) ->
  exists cd0, In (x, cd0) scw /\ In c (map fst cd0).
Proof.
  unfold normalize_card_weights. intros Hin Hc. apply in_map_iff in Hin as ([x0 cd0] & Heq & Hin).
  injection Heq as -> <-. exists cd0. split; [exact Hin|].
  destruct (Qltb 0 _); [|exact Hc].
  rewrite map_map in Hc. erewrite map_ext in Hc; [exact Hc|]. intros [c' w]. reflexivity.
Qed.

(** With no room in a day ([max_minutes_per_day <= 0]) or no pattern per
    bucket requested, [generate_patterns] returns an empty pattern mapping
    without drawing from the generator. *)
Theorem generate_patterns_nothing_to_sample {St : Type} (g : Generator St) iter_set fuel
    (schedule : Schedule) (fd : FrequencyData) dd params (s : St) :
  num_patterns_per_room_day params = 0%nat \/
  (max_minutes_per_day params <= 0 /\ (0 < fuel)%nat) ->
  generate_patterns g iter_set fuel schedule fd dd params s = Ok ([], s).
Proof.
  intros H. unfold generate_patterns, bind. rewrite buckets_loop_no_draw by exact H.
  reflexivity.
Qed.

(** Each (weekday, room) appears at most once in the output of
    [generate_patterns], and holds at most [num_patterns_per_room_day]
    patterns. *)
Theorem generate_patterns_bucket_size {St : Type} (g : Generator St) iter_set fuel
    (schedule : Schedule) (fd : FrequencyData) dd params (s : St) out s' :
  set_order_ok iter_set ->
  generate_patterns g iter_set fuel schedule fd dd params s = Ok (out, s') ->
  NoDup (map fst out) /\
  forall key ps, In (key, ps) out -> (List.length ps <= num_patterns_per_room_day params)%nat.
Proof.
  intros Hok. unfold generate_patterns, bind.
  destruct (buckets_loop g params dd fuel _ _ [] s) as [[pd s1]| |] eqn:Hb; try discriminate.
  unfold ret. injection 1 as <- _.
  destruct (buckets_loop_sizes g params dd _ _ _ _ _ _ _
              (room_day_to_surgeons_NoDup schedule) (NoDup_nil (Weekday * Room) : NoDup (map fst ([] : PatternData)))
              (fun _ _ => eq_refl) (fun _ => Nat.le_0_l _) Hb) as [Hnd Hlen].
  split; [rewrite remove_subpatterns_keys by exact Hok; exact Hnd|].
  intros key ps Hin. rewrite (remove_subpatterns_char iter_set pd Hok) in Hin.
  apply in_map_iff in Hin as ([k0 ps0] & Heq & Hin). injection Heq as -> <-.
  specialize (Hlen key). unfold dict_get_default in Hlen.
  rewrite (dict_get_NoDup_In pd key ps0 Hnd Hin) in Hlen.
  pose proof (filter_length_le (survives (List.concat (map snd pd))) ps0). lia.
Qed.

(** Every card of a pattern stored for (weekday, room) is a card for which
    some surgeon with a schedule entry in that room on that weekday has a
    frequency. *)
Theorem generate_patterns_cards_from_bucket {St : Type} (g : Generator St) iter_set fuel
    (schedule : Schedule) (fd : FrequencyData) dd params (s : St) out s' :
  set_order_ok iter_set ->
  generate_patterns g iter_set fuel schedule fd dd params s = Ok (out, s') ->
  forall day room ps p card, In ((day, room), ps) out -> In p ps -> In card p ->
  exists surgeon score freq,
    In ((surgeon, room, day), score) schedule /\ In ((card, surgeon), freq) fd.
Proof.
  intros Hok. unfold generate_patterns, bind.
  destruct (buckets_loop g params dd fuel _ _ [] s) as [[pd s1]| |] eqn:Hb; try discriminate.
  unfold ret. injection 1 as <- _.
  intros day room ps p card Hin Hp Hc.
  destruct (remove_subpatterns_In iter_set pd _ _ _ Hok Hin Hp) as (ps0 & Hin0 & Hp0).
  set (Pk := fun (key : Weekday * Room) (p : Pattern) => forall card, In card p ->
    exists surgeon score freq,
      In ((surgeon, snd key, fst key), score) schedule /\ In ((card, surgeon), freq) fd).
  refine (buckets_loop_keyed g params dd Pk fuel _ _ [] s pd s1 _ _ Hb (day, room) ps0 p
            Hin0 Hp0 card Hc); [|intros ? ? ? []].
  intros [d r] sl Hbk. cbv zeta. intros s0 sq t s2 Hw _ c Hcq.
  destruct (walk_cards g params dd _ _ _ _ _ _ _ _ _ Hw c Hcq) as [[]|Hcc].
  destruct (combined_keys _ _ c Hcc) as (x & nw & Hxn & Hcx).
  assert (Hx : In x (map fst sl)).
  { apply raw_scores_keys. rewrite <- normalized_scores_keys. apply in_map_iff.
    exists (x, nw). auto. }
  apply in_map_iff in Hx as ([x' sc] & Heq & Hxs). simpl in Heq. subst x'.
  unfold dict_get_default in Hcx.
  destruct (dict_get _ x) as [cd|] eqn:Hg; [|destruct Hcx].
  apply dict_get_In in Hg.
  destruct (normalize_card_weights_In _ _ _ _ Hg Hcx) as (cd0 & Hin1 & Hc1).
  destruct (surgeon_card_weights_In _ _ _ _ Hin1 Hc1) as (f & Hf).
  exists x, sc, f. split; [|exact Hf].
  exact (room_day_to_surgeons_In schedule d r sl x sc Hbk Hxs).
Qed.

(** ** [_is_proper_multiset_subset] and [remove_subpatterns] *)

(** On the Counters of two patterns, [_is_proper_multiset_subset] is a
    strict order: irreflexive, asymmetric and transitive. *)
Theorem proper_multiset_subset_strict_order (p q r : Pattern) :
  _is_proper_multiset_subset (counter_of p) (counter_of p) = false /\
  (_is_proper_multiset_subset (counter_of p) (counter_of q) = true ->
   _is_proper_multiset_subset (counter_of q) (counter_of p) = false) /\
  (_is_proper_multiset_subset (counter_of p) (counter_of q) = true ->
   _is_proper_multiset_subset (counter_of q) (counter_of r) = true ->
   _is_proper_multiset_subset (counter_of p) (counter_of r) = true).
Proof.
  split; [apply proper_irrefl|split].
  - rewrite proper_subset_spec. intros Hpq. apply Bool.not_true_iff_false.
    rewrite proper_subset_spec. intros Hqp.
    pose proof (msp_length_lt _ _ Hpq). pose proof (msp_length_lt _ _ Hqp). lia.
  - rewrite !proper_subset_spec. apply msp_trans.
Qed.

(** [_is_proper_multiset_subset] on the Counters of two patterns does not
    depend on the order of the cards within either pattern. *)
Theorem proper_multiset_subset_order_free (p p' q q' : Pattern) :
  Permutation p p' -> Permutation q q' ->
  _is_proper_multiset_subset (counter_of p) (counter_of q) =
  _is_proper_multiset_subset (counter_of p') (counter_of q').
Proof.
  intros Hp Hq.
  assert (Cp : forall k, card_count p k = card_count p' k)
    by (apply (Permutation_count_occ string_dec), Hp).
  assert (Cq : forall k, card_count q k = card_count q' k)
    by (apply (Permutation_count_occ string_dec), Hq).
  apply Bool.eq_true_iff_eq. rewrite !proper_subset_spec. unfold multiset_proper_subset.
  split; intros [Hle Hne]; split.
  - intros k. rewrite <- Cp, <- Cq. apply Hle.
  - intros Heq. apply Hne. intros k. rewrite Cp, Cq. apply Heq.
  - intros k. rewrite Cp, Cq. apply Hle.
  - intros Heq. apply Hne. intros k. rewrite <- Cp, <- Cq. apply Heq.
Qed.

(** No pattern is lost without a cover: for every pattern of the input of
    [remove_subpatterns] the output holds, in some bucket, a pattern with at
    least as many copies of every card. *)
Theorem remove_subpatterns_covers iter_set (pd : PatternData) key ps p :
  set_order_ok iter_set -> In (key, ps) pd -> In p ps ->
  exists key' ps' q, In (key', ps') (remove_subpatterns iter_set pd) /\ In q ps' /\
    forall card, (counter_get (counter_of p) card <= counter_get (counter_of q) card)%nat.
Proof.
  intros Hok Hin Hp. set (corpus := List.concat (map snd pd)).
  assert (Hpc : In p corpus).
  { apply in_concat. exists ps. split; [apply in_map_iff; exists (key, ps); auto|exact Hp]. }
  destruct (exists_surviving_super corpus p Hpc) as (r & Hrc & Hsurv & Hr).
  apply in_concat in Hrc as (ps0 & Hps0 & Hr0).
  apply in_map_iff in Hps0 as ([key' ps1] & Heq & Hin1). simpl in Heq. subst ps1.
  exists key', (filter (survives corpus) ps0), r. split; [|split].
  - rewrite (remove_subpatterns_char iter_set pd Hok). apply in_map_iff.
    exists (key', ps0). auto.
  - apply filter_In. auto.
  - intros card. rewrite !counter_get_of.
    destruct Hr as [->|[Hle _]]; [lia|apply Hle].
Qed.

Lemma generate_patterns_nothing_to_sample_witness :
  generate_patterns (stub_generator (fun _ => 30)) first_occurrence_order 5
    [((0%Z, 0%Z, 0%Z), 1)] [(("A", 0%Z), 2)]%string [("A", (3, 1))]%string
    (mkPatternParams 0 3) 7%nat = Ok ([], 7%nat).
Proof.
  apply (generate_patterns_nothing_to_sample (stub_generator (fun _ => 30))
           first_occurrence_order 5 [((0%Z, 0%Z, 0%Z), 1)] [(("A", 0%Z), 2)]%string
           [("A", (3, 1))]%string (mkPatternParams 0 3) 7%nat).
  right. split; [apply Qle_refl|lia].
Defined.

Lemma generate_patterns_bucket_size_witness :
  exists out s',
    generate_patterns (stub_generator (fun _ => 30)) first_occurrence_order 100
      [((0%Z, 0%Z, 0%Z), 1); ((1%Z, 0%Z, 0%Z), 1)]
      [(("A", 0%Z), 2); (("B", 1%Z), 1)]%string
      [("A", (3, 1)); ("B", (3, 1))]%string (mkPatternParams 100 2) 0%nat = Ok (out, s') /\
    NoDup (map fst out) /\
    forall key ps, In (key, ps) out -> (List.length ps <= 2)%nat.
Proof.
  eexists; eexists; split; [reflexivity|].
  eapply (generate_patterns_bucket_size (stub_generator (fun _ => 30))
            first_occurrence_order 100 [((0%Z, 0%Z, 0%Z), 1); ((1%Z, 0%Z, 0%Z), 1)]
            [(("A", 0%Z), 2); (("B", 1%Z), 1)]%string
            [("A", (3, 1)); ("B", (3, 1))]%string (mkPatternParams 100 2) 0%nat).
  - exact first_occurrence_order_ok.
  - reflexivity.
Defined.

Lemma generate_patterns_cards_from_bucket_witness :
  exists out s',
    generate_patterns (stub_generator (fun _ => 30)) first_occurrence_order 100
      [((0%Z, 0%Z, 0%Z), 1); ((1%Z, 1%Z, 0%Z), 1)]
      [(("A", 0%Z), 2); (("B", 1%Z), 1)]%string
      [("A", (3, 1)); ("B", (3, 1))]%string (mkPatternParams 100 2) 0%nat = Ok (out, s') /\
    forall day room ps p card, In ((day, room), ps) out -> In p ps -> In card p ->
    exists surgeon score freq,
      In ((surgeon, room, day), score) [((0%Z, 0%Z, 0%Z), 1); ((1%Z, 1%Z, 0%Z), 1)] /\
      In ((card, surgeon), freq) [(("A", 0%Z), 2); (("B", 1%Z), 1)]%string.
Proof.
  eexists; eexists; split; [reflexivity|].
  eapply (generate_patterns_cards_from_bucket (stub_generator (fun _ => 30))
            first_occurrence_order 100 [((0%Z, 0%Z, 0%Z), 1); ((1%Z, 1%Z, 0%Z), 1)]
            [(("A", 0%Z), 2); (("B", 1%Z), 1)]%string
            [("A", (3, 1)); ("B", (3, 1))]%string (mkPatternParams 100 2) 0%nat).
  - exact first_occurrence_order_ok.
  - reflexivity.
Defined.

Lemma proper_multiset_subset_order_free_witness :
  _is_proper_multiset_subset (counter_of ["A"; "B"]%string) (counter_of ["A"; "B"; "A"]%string) =
  _is_proper_multiset_subset (counter_of ["B"; "A"]%string) (counter_of ["A"; "A"; "B"]%string).
Proof.
  apply proper_multiset_subset_order_free.
  - apply perm_swap.
  - apply perm_skip, perm_swap.
Defined.

Lemma remove_subpatterns_covers_witness :
  exists key' ps' q,
    In (key', ps') (remove_subpatterns first_occurrence_order subsumption_example) /\
    In q ps' /\
    forall card, (counter_get (counter_of ["A"; "B"]%string) card <=
                  counter_get (counter_of q) card)%nat.
Proof.
  apply (remove_subpatterns_covers first_occurrence_order subsumption_example (0%Z, 0%Z)
           [["A"; "B"]; ["A"; "B"; "C"]; ["A"; "A"; "B"]]%string ["A"; "B"]%string).
  - exact first_occurrence_order_ok.
  - left. reflexivity.
  - left. reflexivity.
Defined.

(** ** [create_card_groups] *)

Lemma insert_by_neg_freq_perm x l : Permutation (insert_by_neg_freq x l) (x :: l).
Proof.
  induction l as [|y l IH]; simpl; [reflexivity|].
  destruct (Qltb _ _); [reflexivity|].
  rewrite IH. apply perm_swap.
Qed.

Lemma sort_by_neg_freq_perm l : Permutation (sort_by_neg_freq l) l.
Proof.
  unfold sort_by_neg_freq.
  enough (H : forall acc, Permutation (fold_left (fun acc x => insert_by_neg_freq x acc) l acc)
                                     (acc ++ l)) by (apply H).
  induction l as [|x l IH]; intros acc; simpl; [rewrite app_nil_r; reflexivity|].
  rewrite IH, insert_by_neg_freq_perm. simpl. apply Permutation_middle.
Qed.

(** The sort order: most frequent first. *)
Definition freq_desc (a b : OperationCard * Q) : Prop := snd b <= snd a.

Lemma insert_by_neg_freq_hd y x l :
  HdRel freq_desc y l -> freq_desc y x -> HdRel freq_desc y (insert_by_neg_freq x l).
Proof.
  destruct l as [|z l]; simpl; intros Hh Hyx; [constructor; exact Hyx|].
  destruct (Qltb _ _); constructor; [exact Hyx|inversion Hh; assumption].
Qed.

Lemma insert_by_neg_freq_sorted x l :
  Sorted freq_desc l -> Sorted freq_desc (insert_by_neg_freq x l).
Proof.
  induction 1 as [|y l Hl IH Hh]; simpl; [repeat constructor|].
  destruct (Qltb (- snd x) (- snd y)) eqn:E.
  - apply Qltb_true_lt in E. constructor; [constructor; assumption|].
    constructor. unfold freq_desc. lra.
  - apply Qltb_false_le in E. constructor; [exact IH|].
    apply insert_by_neg_freq_hd; [exact Hh|]. unfold freq_desc. lra.
Qed.

Lemma sort_by_neg_freq_sorted l : StronglySorted freq_desc (sort_by_neg_freq l).
Proof.
  apply Sorted_StronglySorted; [intros a b c; unfold freq_desc; lra|].
  unfold sort_by_neg_freq.
  enough (H : forall acc, Sorted freq_desc acc ->
    Sorted freq_desc (fold_left (fun acc x => insert_by_neg_freq x acc) l acc))
    by (apply H; constructor).
  induction l as [|x l IH]; intros acc Hacc; simpl; [exact Hacc|].
  apply IH, insert_by_neg_freq_sorted, Hacc.
Qed.

Lemma combine_app {A B} (a1 a2 : list A) (b1 b2 : list B) :
  List.length a1 = List.length b1 -> combine (a1 ++ a2) (b1 ++ b2) = combine a1 b1 ++ combine a2 b2.
Proof.
  revert b1. induction a1 as [|x a1 IH]; intros [|y b1]; simpl; intros Hl;
    try discriminate; [reflexivity|]. rewrite IH by lia. reflexivity.
Qed.

Lemma firstn_S_nth_error {A} (l : list A) n x :
  nth_error l n = Some x -> firstn (S n) l = firstn n l ++ [x].
Proof.
  revert n. induction l as [|y l IH]; intros [|n]; simpl; try discriminate.
  - injection 1 as ->. reflexivity.
  - intros H. f_equal. exact (IH n H).
Qed.

Lemma NoDup_nth_error_not_firstn {A} (l : list A) n x :
  NoDup l -> nth_error l n = Some x -> ~ In x (firstn n l).
Proof.
  intros Hnd Hx Hin. apply In_nth_error in Hin as (i & Hi).
  assert (Hlt : (i < List.length (firstn n l))%nat)
    by (apply nth_error_Some; congruence).
  rewrite length_firstn in Hlt. rewrite nth_error_firstn in Hi.
  destruct (Nat.ltb i n) eqn:E; [|discriminate].
  apply Nat.ltb_lt in E. rewrite <- Hx in Hi.
  assert (i = n); [|lia].
  apply (proj1 (NoDup_nth_error l) Hnd); [apply nth_error_Some; congruence|exact Hi].
Qed.

Section AssignGroups.
Variable sorted_cards : list (OperationCard * Q).
Let keys := map fst sorted_cards.
Hypothesis Hnd : NoDup keys.

Lemma assign_group_spec group_id size idx pl :
  List.length pl = idx -> (idx + size <= List.length sorted_cards)%nat ->
  assign_group sorted_cards group_id size idx (combine (firstn idx keys) pl) =
  Ok (combine (firstn (idx + size) keys) (pl ++ repeat group_id size), (idx + size)%nat).
Proof.
  revert idx pl. induction size as [|size IH]; intros idx pl Hpl Hb; simpl.
  - rewrite app_nil_r, Nat.add_0_r. reflexivity.
  - destruct (nth_error sorted_cards idx) as [[card f]|] eqn:Hc.
    2: { apply nth_error_None in Hc. lia. }
    assert (Hk : nth_error keys idx = Some card)
      by (unfold keys; rewrite nth_error_map, Hc; reflexivity).
    assert (Hlen : List.length (firstn idx keys) = idx)
      by (rewrite length_firstn; unfold keys; rewrite length_map; lia).
    rewrite dict_set_fresh.
    2: { rewrite map_fst_combine by lia. exact (NoDup_nth_error_not_firstn _ _ _ Hnd Hk). }
    rewrite <- (combine_app _ [card] _ [group_id]) by lia.
    rewrite <- (firstn_S_nth_error _ _ _ Hk).
    rewrite (IH (S idx) (pl ++ [group_id])).
    + rewrite <- app_assoc. replace (S idx + size)%nat with (idx + S size)%nat by lia.
      reflexivity.
    + rewrite length_app. simpl. lia.
    + lia.
Qed.

Lemma assign_groups_spec group_sizes group_id idx pl :
  List.length pl = idx ->
  (idx + List.length (group_labels group_id group_sizes) <= List.length sorted_cards)%nat ->
  assign_groups sorted_cards group_sizes group_id idx (combine (firstn idx keys) pl) =
  Ok (combine (firstn (idx + List.length (group_labels group_id group_sizes)) keys)
              (pl ++ group_labels group_id group_sizes)).
Proof.
  revert group_id idx pl. induction group_sizes as [|size rest IH]; intros gid idx pl Hpl Hb;
    simpl in *.
  - rewrite app_nil_r, Nat.add_0_r. reflexivity.
  - rewrite length_app, repeat_length in Hb.
    rewrite assign_group_spec by (auto; lia).
    rewrite IH by (rewrite ?length_app, ?repeat_length; lia).
    rewrite length_app, repeat_length, app_assoc, Nat.add_assoc. reflexivity.
Qed.
End AssignGroups.

Lemma group_labels_length gid sizes :
  List.length (group_labels gid sizes) = list_sum (map Z.to_nat sizes).
Proof.
  revert gid. induction sizes as [|s rest IH]; intros gid; simpl; [reflexivity|].
  rewrite length_app, repeat_length, IH. reflexivity.
Qed.

Lemma group_labels_range gid sizes x :
  In x (group_labels gid sizes) -> (gid <= x < gid + List.length sizes)%nat.
Proof.
  revert gid. induction sizes as [|s rest IH]; intros gid; simpl; [intros []|].
  intros Hx. apply in_app_iff in Hx as [Hx|Hx].
  - apply repeat_spec in Hx. lia.
  - apply IH in Hx. lia.
Qed.

Lemma group_labels_count gid sizes x :
  (gid <= x)%nat ->
  count_occ Nat.eq_dec (group_labels gid sizes) x = Z.to_nat (nth (x - gid) sizes 0%Z).
Proof.
  revert gid. induction sizes as [|s rest IH]; intros gid Hx; simpl.
  - destruct (x - gid)%nat; reflexivity.
  - rewrite count_occ_app.
    destruct (Nat.eq_dec x gid) as [->|Hne].
    + rewrite Nat.sub_diag, count_occ_repeat_eq by reflexivity.
      rewrite (proj1 (count_occ_not_In _ _ _)); [lia|].
      intros Hin. apply group_labels_range in Hin. lia.
    + rewrite count_occ_repeat_neq by congruence. rewrite IH by lia.
      replace (x - gid)%nat with (S (x - S gid)) by lia. reflexivity.
Qed.

Lemma StronglySorted_app {A} (R : A -> A -> Prop) l1 l2 :
  StronglySorted R l1 -> StronglySorted R l2 ->
  (forall a b, In a l1 -> In b l2 -> R a b) -> StronglySorted R (l1 ++ l2).
Proof.
  induction 1 as [|a l1 Hl1 IH Ha]; intros Hl2 Hab; simpl; [exact Hl2|].
  constructor; [apply IH; [exact Hl2|intros; apply Hab; simpl; auto]|].
  apply Forall_app. split; [exact Ha|]. apply Forall_forall. intros b Hb.
  apply Hab; simpl; auto.
Qed.

Lemma group_labels_sorted gid sizes : StronglySorted le (group_labels gid sizes).
Proof.
  revert gid. induction sizes as [|s rest IH]; intros gid; simpl; [constructor|].
  apply StronglySorted_app; [|apply IH|].
  - induction (Z.to_nat s) as [|k IHk]; simpl; constructor; [exact IHk|].
    apply Forall_forall. intros b Hb. apply repeat_spec in Hb. lia.
  - intros a b Ha Hb. apply repeat_spec in Ha. apply group_labels_range in Hb. lia.
Qed.

Lemma StronglySorted_nth_error {A} (R : A -> A -> Prop) l i j x y :
  StronglySorted R l -> (i < j)%nat -> nth_error l i = Some x -> nth_error l j = Some y ->
  R x y.
Proof.
  intros Hs. revert i j. induction Hs as [|a l Hl IH Ha]; intros i j Hij Hi Hj;
    [destruct i; discriminate|].
  destruct i as [|i], j as [|j]; simpl in *; try lia.
  - injection Hi as <-. rewrite Forall_forall in Ha. apply Ha. eapply nth_error_In, Hj.
  - apply (IH i j); [lia|exact Hi|exact Hj].
Qed.

Lemma In_combine_nth_error {A B} (l1 : list A) (l2 : list B) a b :
  In (a, b) (combine l1 l2) -> exists i, nth_error l1 i = Some a /\ nth_error l2 i = Some b.
Proof.
  revert l2. induction l1 as [|x l1 IH]; intros [|y l2]; simpl; try tauto.
  intros [Heq|Hin]; [injection Heq as -> ->; exists 0%nat; auto|].
  destruct (IH _ Hin) as (i & H1 & H2). exists (S i). auto.
Qed.

(** [sum(group_sizes) == total_cards] when [n_groups > 0]. *)
Lemma group_sizes_sum (total n : Z) :
  (0 <= total)%Z -> (0 < n)%Z ->
  list_sum (map Z.to_nat
    (map (fun i => (total / n + (if Z.ltb (Z.of_nat i) (total mod n) then 1 else 0))%Z)
       (seq 0 (Z.to_nat n)))) = Z.to_nat total.
Proof.
  intros Ht Hn.
  pose proof (Z.div_mod total n ltac:(lia)) as Hdm.
  pose proof (Z.mod_pos_bound total n Hn) as Hm.
  pose proof (Z.div_pos total n Ht Hn) as Hb.
  set (b := (total / n)%Z) in *. set (r := (total mod n)%Z) in *.
  assert (Hgen : forall m, list_sum (map Z.to_nat
    (map (fun i => (b + (if Z.ltb (Z.of_nat i) r then 1 else 0))%Z) (seq 0 m))) =
    (m * Z.to_nat b + Nat.min m (Z.to_nat r))%nat).
  { induction m as [|m IH]; [reflexivity|].
    rewrite seq_S, !map_app, list_sum_app, IH. cbn [map]. rewrite Nat.add_0_l.
    unfold list_sum at 1. cbn [fold_right]. rewrite Nat.mul_succ_l.
    destruct (Z.ltb (Z.of_nat m) r) eqn:E; [apply Z.ltb_lt in E|apply Z.ltb_ge in E]; lia. }
  rewrite Hgen. nia.
Qed.

Lemma create_card_groups_char card_freq n_groups :
  NoDup (map fst card_freq) -> (0 < n_groups)%Z ->
  let sorted_cards := sort_by_neg_freq card_freq in
  let total := Z.of_nat (List.length sorted_cards) in
  create_card_groups card_freq n_groups =
  Ok (combine (map fst sorted_cards)
        (group_labels 0
           (map (fun i => (total / n_groups +
                           (if Z.ltb (Z.of_nat i) (total mod n_groups) then 1 else 0))%Z)
              (seq 0 (Z.to_nat n_groups))))) /\
  List.length (group_labels 0
           (map (fun i => (total / n_groups +
                           (if Z.ltb (Z.of_nat i) (total mod n_groups) then 1 else 0))%Z)
              (seq 0 (Z.to_nat n_groups)))) = List.length sorted_cards.
Proof.
  intros Hnd Hn. cbv zeta. unfold create_card_groups. cbv zeta.
  rewrite (proj2 (Z.eqb_neq n_groups 0)) by lia.
  set (sc := sort_by_neg_freq card_freq).
  assert (Hnd' : NoDup (map fst sc))
    by (eapply Permutation_NoDup; [symmetry; apply Permutation_map, sort_by_neg_freq_perm|]; exact Hnd).
  assert (Hl : List.length (group_labels 0
           (map (fun i => (Z.of_nat (List.length sc) / n_groups +
                           (if Z.ltb (Z.of_nat i) (Z.of_nat (List.length sc) mod n_groups)
                            then 1 else 0))%Z)
              (seq 0 (Z.to_nat n_groups)))) = List.length sc).
  { rewrite group_labels_length, group_sizes_sum by lia. apply Nat2Z.id. }
  split; [|exact Hl].
  change (@nil (OperationCard * nat)) with (combine (firstn 0 (map fst sc)) (@nil nat)).
  rewrite (assign_groups_spec sc Hnd') by (simpl; lia).
  rewrite Hl. simpl. rewrite firstn_all2 by (rewrite length_map; lia). reflexivity.
Qed.

(** A non-positive [n_groups] assigns nothing: zero raises
    [ZeroDivisionError], and a negative count gives [range(n_groups)] no
    element, so the empty mapping is returned and every card is left
    without a group. *)
Theorem create_card_groups_nonpositive card_freq n_groups :
  (n_groups <= 0)%Z ->
  create_card_groups card_freq n_groups =
  if Z.eqb n_groups 0 then Raise ZeroDivisionError else Ok [].
Proof.
  intros Hn. unfold create_card_groups. cbv zeta.
  destruct (Z.eqb n_groups 0); [reflexivity|].
  replace (Z.to_nat n_groups) with 0%nat by lia. reflexivity.
Qed.

(** For [n_groups > 0], [create_card_groups] never indexes past the sorted
    cards: it returns a mapping that gives every card of [card_freq] exactly
    one group id, in [0, n_groups). *)
Theorem create_card_groups_total card_freq n_groups :
  NoDup (map fst card_freq) -> (0 < n_groups)%Z ->
  exists card_groups, create_card_groups card_freq n_groups = Ok card_groups /\
    Permutation (map fst card_groups) (map fst card_freq) /\
    forall card group_id, In (card, group_id) card_groups ->
      (group_id < Z.to_nat n_groups)%nat.
Proof.
  intros Hnd Hn. destruct (create_card_groups_char card_freq n_groups Hnd Hn) as [Heq Hl].
  eexists. split; [exact Heq|split].
  - rewrite map_fst_combine by (rewrite length_map; lia).
    apply Permutation_map, sort_by_neg_freq_perm.
  - intros card gid Hin. apply in_combine_r, group_labels_range in Hin.
    rewrite length_map, length_seq in Hin. lia.
Qed.

(** For [n_groups > 0], group [i] receives [len(card_freq) // n_groups]
    cards, plus one when [i < len(card_freq) % n_groups]: the sizes differ by
    at most one, and the larger groups come first. *)
Theorem create_card_groups_sizes card_freq n_groups card_groups :
  NoDup (map fst card_freq) -> (0 < n_groups)%Z ->
  create_card_groups card_freq n_groups = Ok card_groups ->
  forall group_id, (group_id < Z.to_nat n_groups)%nat ->
    List.length (filter (fun '(_, g) => Nat.eqb g group_id) card_groups) =
    (Z.to_nat (Z.of_nat (List.length card_freq) / n_groups) +
     if Z.ltb (Z.of_nat group_id) (Z.of_nat (List.length card_freq) mod n_groups)
     then 1 else 0)%nat.
Proof.
  intros Hnd Hn. destruct (create_card_groups_char card_freq n_groups Hnd Hn) as [Heq Hl].
  rewrite Heq. injection 1 as <-. intros gid Hgid.
  rewrite (Permutation_length (sort_by_neg_freq_perm card_freq)) in *.
  set (L := group_labels 0 _) in *.
  assert (Hc : forall (ks : list OperationCard) (ls : list nat), List.length ks = List.length ls ->
    List.length (filter (fun '(_, g) => Nat.eqb g gid) (combine ks ls)) =
    count_occ Nat.eq_dec ls gid).
  { induction ks as [|k ks IH]; intros [|l ls] Hlen; simpl in *; try lia.
    destruct (Nat.eqb l gid) eqn:E, (Nat.eq_dec l gid) as [->|Hne]; simpl;
      try (apply Nat.eqb_eq in E; congruence); try (rewrite Nat.eqb_refl in E; discriminate);
      rewrite IH; lia. }
  rewrite Hc by (rewrite length_map, (Permutation_length (sort_by_neg_freq_perm card_freq)); lia).
  unfold L. rewrite group_labels_count by lia. rewrite Nat.sub_0_r.
  assert (Hnth : forall (f : nat -> Z) k m d, (k < m)%nat -> nth k (map f (seq 0 m)) d = f k).
  { intros f k m d Hk. rewrite nth_indep with (d' := f 0%nat)
      by (rewrite length_map, length_seq; exact Hk).
    rewrite map_nth, seq_nth by exact Hk. reflexivity. }
  rewrite (Hnth _ gid _ _ Hgid).
  pose proof (Z.div_pos (Z.of_nat (List.length card_freq)) n_groups ltac:(lia) Hn).
  destruct (Z.ltb _ _); lia.
Qed.

(** For [n_groups > 0], a strictly more frequent card never gets a larger
    group id: group 0 holds the most frequent cards. *)
Theorem create_card_groups_monotone card_freq n_groups card_groups ca fa cb fb ga gb :
  NoDup (map fst card_freq) -> (0 < n_groups)%Z ->
  create_card_groups card_freq n_groups = Ok card_groups ->
  In (ca, fa) card_freq -> In (cb, fb) card_freq -> fb < fa ->
  In (ca, ga) card_groups -> In (cb, gb) card_groups -> (ga <= gb)%nat.
Proof.
  intros Hnd Hn. destruct (create_card_groups_char card_freq n_groups Hnd Hn) as [Heq Hl].
  rewrite Heq. injection 1 as <-. intros Ha Hb Hf Hga Hgb.
  set (sc := sort_by_neg_freq card_freq) in *.
  set (L := group_labels 0 _) in *.
  assert (Hnd' : NoDup (map fst sc))
    by (eapply Permutation_NoDup; [symmetry; apply Permutation_map, sort_by_neg_freq_perm|]; exact Hnd).
  apply (Permutation_in _ (Permutation_sym (sort_by_neg_freq_perm card_freq))) in Ha, Hb.
  fold sc in Ha, Hb.
  apply In_nth_error in Ha as (i & Hi). apply In_nth_error in Hb as (j & Hj).
  apply In_combine_nth_error in Hga as (i' & Hki & Hli).
  apply In_combine_nth_error in Hgb as (j' & Hkj & Hlj).
  assert (i' = i).
  { apply (proj1 (NoDup_nth_error (map fst sc)) Hnd').
    - apply nth_error_Some. congruence.
    - rewrite Hki, nth_error_map, Hi. reflexivity. }
  assert (j' = j).
  { apply (proj1 (NoDup_nth_error (map fst sc)) Hnd').
    - apply nth_error_Some. congruence.
    - rewrite Hkj, nth_error_map, Hj. reflexivity. }
  subst i' j'.
  destruct (Nat.lt_trichotomy i j) as [Hlt|[<-|Hgt]].
  - exact (StronglySorted_nth_error le L i j ga gb (group_labels_sorted 0 _) Hlt Hli Hlj).
  - rewrite Hi in Hj. injection Hj as -> ->. destruct (Qlt_irrefl fb Hf).
  - pose proof (StronglySorted_nth_error freq_desc sc j i _ _
                  (sort_by_neg_freq_sorted card_freq) Hgt Hj Hi) as Hd.
    unfold freq_desc in Hd. simpl in Hd. lra.
Qed.

Lemma create_card_groups_nonpositive_witness :
  create_card_groups [("a", 1 # 2); ("b", 1 # 2)]%string (-2)%Z =
  if Z.eqb (-2)%Z 0 then Raise ZeroDivisionError else Ok [].
Proof.
  apply (create_card_groups_nonpositive [("a", 1 # 2); ("b", 1 # 2)]%string (-2)%Z). lia.
Defined.

Lemma create_card_groups_total_witness :
  exists card_groups,
    create_card_groups [("a", 1 # 10); ("b", 5 # 10); ("c", 1 # 10); ("d", 3 # 10)]%string 3%Z
      = Ok card_groups /\
    Permutation (map fst card_groups) ["a"; "b"; "c"; "d"]%string /\
    forall card group_id, In (card, group_id) card_groups -> (group_id < 3)%nat.
Proof.
  apply (create_card_groups_total
           [("a", 1 # 10); ("b", 5 # 10); ("c", 1 # 10); ("d", 3 # 10)]%string 3%Z).
  - simpl. repeat constructor; simpl; intuition discriminate.
  - lia.
Defined.

Lemma create_card_groups_sizes_witness :
  exists card_groups,
    create_card_groups [("a", 1 # 10); ("b", 5 # 10); ("c", 1 # 10); ("d", 3 # 10);
                        ("e", 5 # 10)]%string 2%Z = Ok card_groups /\
    forall group_id, (group_id < 2)%nat ->
      List.length (filter (fun '(_, g) => Nat.eqb g group_id) card_groups) =
      (Z.to_nat (5 / 2) + if Z.ltb (Z.of_nat group_id) (5 mod 2) then 1 else 0)%nat.
Proof.
  eexists; split; [reflexivity|].
  apply (create_card_groups_sizes
           [("a", 1 # 10); ("b", 5 # 10); ("c", 1 # 10); ("d", 3 # 10); ("e", 5 # 10)]%string
           2%Z).
  - simpl. repeat constructor; simpl; intuition discriminate.
  - lia.
  - reflexivity.
Defined.

Lemma create_card_groups_monotone_witness : (0 <= 1)%nat.
Proof.
  apply (create_card_groups_monotone
           [("a", 1 # 10); ("b", 5 # 10); ("c", 1 # 10); ("d", 3 # 10); ("e", 5 # 10)]%string
           2%Z [("b", 0%nat); ("e", 0%nat); ("d", 0%nat); ("a", 1%nat); ("c", 1%nat)]%string
           "b"%string (5 # 10) "a"%string (1 # 10) 0%nat 1%nat).
  - simpl. repeat constructor; simpl; intuition discriminate.
  - lia.
  - reflexivity.
  - right. left. reflexivity.
  - left. reflexivity.
  - reflexivity.
  - left. reflexivity.
  - right. right. right. left. reflexivity.
Defined.

(** ** [_infer_index_maps_from_frequency_data] and [_build_frequency_matrix] *)

Lemma insert_lt_perm {A} (ltb : A -> A -> bool) x l : Permutation (insert_lt ltb x l) (x :: l).
Proof.
  induction l as [|y l IH]; simpl; [reflexivity|].
  destruct (ltb x y); [reflexivity|]. rewrite IH. apply perm_swap.
Qed.

Lemma sort_lt_perm {A} (ltb : A -> A -> bool) l : Permutation (sort_lt ltb l) l.
Proof.
  unfold sort_lt.
  enough (H : forall acc, Permutation (fold_left (fun acc x => insert_lt ltb x acc) l acc)
                                     (acc ++ l)) by (apply H).
  induction l as [|x l IH]; intros acc; simpl; [rewrite app_nil_r; reflexivity|].
  rewrite IH, insert_lt_perm. simpl. apply Permutation_middle.
Qed.

Lemma dict_get_not_In {K V} `{HE : EqDec K} (d : list (K * V)) k :
  ~ In k (map fst d) -> dict_get d k = None.
Proof.
  induction d as [|[k1 v1] d IH]; simpl; intros Hn; [reflexivity|].
  destruct (eq_dec k k1) as [->|]; [tauto|]. apply IH. tauto.
Qed.

Lemma enumerate_index_char {A} `{HE : EqDec A} (xs : list A) :
  NoDup xs -> enumerate_index xs = combine xs (seq 0 (List.length xs)).
Proof.
  intros Hnd. unfold enumerate_index.
  enough (Hg : forall k acc, (forall x, In x xs -> ~ In x (map fst acc)) ->
    fold_left (fun d '(i, x) => dict_set d x i) (combine (seq k (List.length xs)) xs) acc =
    acc ++ combine xs (seq k (List.length xs))) by (apply Hg; intros x _ []).
  induction Hnd as [|x xs Hx Hnd IH]; intros k acc Hfr; simpl; [rewrite app_nil_r; reflexivity|].
  rewrite dict_set_fresh by (apply Hfr; left; reflexivity).
  rewrite IH, <- app_assoc; [reflexivity|].
  intros y Hy. rewrite map_app, in_app_iff. intros [Hin|[Heq|[]]].
  - exact (Hfr y (or_intror Hy) Hin).
  - simpl in Heq. subst. contradiction.
Qed.

Lemma dict_get_combine_seq {A} `{HE : EqDec A} (xs : list A) k x i :
  NoDup xs ->
  dict_get (combine xs (seq k (List.length xs))) x = Some i <->
  (k <= i)%nat /\ nth_error xs (i - k) = Some x.
Proof.
  intros Hnd. revert k. induction Hnd as [|x0 xs Hx0 Hnd IH]; intros k; simpl.
  - split; [discriminate|]. intros [_ H]. destruct (i - k)%nat; discriminate.
  - destruct (eq_dec x x0) as [->|Hne].
    + split; [injection 1 as <-; rewrite Nat.sub_diag; auto|].
      intros [Hki Hn]. destruct (i - k)%nat as [|m] eqn:E; [f_equal; lia|].
      simpl in Hn. apply nth_error_In in Hn. contradiction.
    + rewrite IH. split.
      * intros [Hki Hn]. split; [lia|]. replace (i - k)%nat with (S (i - S k)) by lia. exact Hn.
      * intros [Hki Hn]. destruct (i - k)%nat as [|m] eqn:E; [injection Hn as ->; congruence|].
        split; [lia|]. replace (i - S k)%nat with m by lia. exact Hn.
Qed.

Lemma enumerate_index_roundtrip {A} `{HE : EqDec A} (xs : list A) x i :
  NoDup xs -> dict_get (enumerate_index xs) x = Some i <-> nth_error xs i = Some x.
Proof.
  intros Hnd. rewrite enumerate_index_char, dict_get_combine_seq by exact Hnd.
  rewrite Nat.sub_0_r. split; [intros [_ H]; exact H|split; [lia|exact H]].
Qed.

Lemma sort_nodup_In {A} (ltb : A -> A -> bool) (dec : forall x y : A, {x = y} + {x <> y}) l x :
  In x (sort_lt ltb (nodup dec l)) <-> In x l.
Proof.
  split; intros Hx.
  - apply (Permutation_in _ (sort_lt_perm ltb _)) in Hx. apply nodup_In in Hx. exact Hx.
  - apply (Permutation_in _ (Permutation_sym (sort_lt_perm ltb _))). apply nodup_In, Hx.
Qed.

Lemma sort_nodup_NoDup {A} (ltb : A -> A -> bool) (dec : forall x y : A, {x = y} + {x <> y}) l :
  NoDup (sort_lt ltb (nodup dec l)).
Proof.
  eapply Permutation_NoDup; [symmetry; apply sort_lt_perm|]. apply NoDup_nodup.
Qed.

Lemma list_set_length {A} (l : list A) i v : List.length (list_set l i v) = List.length l.
Proof.
  revert i. induction l as [|x l IH]; intros [|i]; simpl; auto.
Qed.

Lemma nth_list_set {A} (l : list A) i v k d :
  (i < List.length l)%nat -> nth k (list_set l i v) d = if Nat.eqb k i then v else nth k l d.
Proof.
  revert i k. induction l as [|x l IH]; intros [|i] [|k] Hi; simpl in *; try lia; auto.
  rewrite IH by lia. reflexivity.
Qed.

Lemma nth_error_list_set_other {A} (l : list A) i v k :
  k <> i -> nth_error (list_set l i v) k = nth_error l k.
Proof.
  revert i k. induction l as [|x l IH]; intros [|i] [|k] Hk; simpl; try reflexivity;
    try congruence. apply IH. congruence.
Qed.

Lemma nth_error_list_set_same {A} (l : list A) i v :
  (i < List.length l)%nat -> nth_error (list_set l i v) i = Some v.
Proof.
  revert i. induction l as [|x l IH]; intros [|i] Hi; simpl in *; try lia; auto.
  apply IH. lia.
Qed.

Definition matrix_shape (m : list (list Q)) (T S : nat) : Prop :=
  List.length m = T /\ Forall (fun row => List.length row = S) m.

Lemma matrix_set_ok m T S i j v :
  matrix_shape m T S -> (i < T)%nat -> (j < S)%nat ->
  exists m', matrix_set m i j v = Ok m' /\ matrix_shape m' T S /\
    forall i' j', nth j' (nth i' m' []) 0 =
      if andb (Nat.eqb i' i) (Nat.eqb j' j) then v else nth j' (nth i' m []) 0.
Proof.
  intros [Hl Hrows] Hi Hj. unfold matrix_set.
  destruct (nth_error m i) as [row|] eqn:Hr; [|apply nth_error_None in Hr; lia].
  assert (Hrow : List.length row = S)
    by (rewrite Forall_forall in Hrows; apply Hrows; eapply nth_error_In, Hr).
  rewrite (proj2 (Nat.ltb_lt j (List.length row))) by lia.
  eexists. split; [reflexivity|split; [split|]].
  - rewrite list_set_length. exact Hl.
  - apply Forall_forall. intros r Hin. apply In_nth_error in Hin as (k & Hk).
    destruct (Nat.eq_dec k i) as [->|Hne].
    + rewrite nth_error_list_set_same in Hk by lia. injection Hk as <-.
      rewrite list_set_length. exact Hrow.
    + rewrite nth_error_list_set_other in Hk by exact Hne.
      rewrite Forall_forall in Hrows. apply Hrows. eapply nth_error_In, Hk.
  - intros i' j'. rewrite nth_list_set by lia.
    destruct (Nat.eqb i' i) eqn:Ei; simpl.
    + apply Nat.eqb_eq in Ei. subst i'. rewrite nth_list_set by lia.
      rewrite (nth_error_nth m i [] Hr). reflexivity.
    + reflexivity.
Qed.

Section FillMatrix.
Variables (operation_cards : list OperationCard) (surgeons : list Surgeon).
Variables (op_to_i : list (OperationCard * nat)) (s_to_j : list (Surgeon * nat)).
Hypothesis Hoi : forall op i, dict_get op_to_i op = Some i <-> nth_error operation_cards i = Some op.
Hypothesis Hsj : forall s j, dict_get s_to_j s = Some j <-> nth_error surgeons j = Some s.

Lemma index_of_member_op op :
  In op operation_cards -> exists i, dict_get op_to_i op = Some i /\
    (i < List.length operation_cards)%nat.
Proof.
  intros Hin. apply In_nth_error in Hin as (i & Hi). exists i. split; [apply Hoi, Hi|].
  apply nth_error_Some. congruence.
Qed.

Lemma index_of_member_s s :
  In s surgeons -> exists j, dict_get s_to_j s = Some j /\ (j < List.length surgeons)%nat.
Proof.
  intros Hin. apply In_nth_error in Hin as (j & Hj). exists j. split; [apply Hsj, Hj|].
  apply nth_error_Some. congruence.
Qed.

Lemma fill_negative items m :
  (forall op s f, In ((op, s), f) items -> In op operation_cards /\ In s surgeons) ->
  matrix_shape m (List.length operation_cards) (List.length surgeons) ->
  (exists k f, In (k, f) items /\ f < 0) ->
  fill_frequency_matrix op_to_i s_to_j items m = Raise ValueError.
Proof.
  revert m. induction items as [|[[op s] f] rest IH]; intros m Hmem Hsh Hneg; simpl;
    [destruct Hneg as (? & ? & [] & _)|].
  destruct (Qltb f 0) eqn:Ef; [reflexivity|].
  destruct (Hmem op s f (or_introl eq_refl)) as [Hop Hs].
  destruct (index_of_member_op op Hop) as (i & -> & Hi).
  destruct (index_of_member_s s Hs) as (j & -> & Hj).
  destruct (matrix_set_ok m _ _ i j f Hsh Hi Hj) as (m1 & -> & Hsh1 & _).
  apply IH; [intros; eapply Hmem; right; eassumption|exact Hsh1|].
  destruct Hneg as (k & f' & [Heq|Hin] & Hlt); [|eauto].
  injection Heq as <- <-. apply Qltb_false_le in Ef. exfalso. lra.
Qed.

Lemma fill_ok items m :
  (forall op s f, In ((op, s), f) items -> In op operation_cards /\ In s surgeons) ->
  (forall k f, In (k, f) items -> 0 <= f) ->
  NoDup (map fst items) ->
  matrix_shape m (List.length operation_cards) (List.length surgeons) ->
  exists m', fill_frequency_matrix op_to_i s_to_j items m = Ok m' /\
    matrix_shape m' (List.length operation_cards) (List.length surgeons) /\
    forall i j op s, nth_error operation_cards i = Some op -> nth_error surgeons j = Some s ->
      nth j (nth i m' []) 0 = dict_get_default items (op, s) (nth j (nth i m []) 0).
Proof.
  revert m. induction items as [|[[op' s'] f] rest IH]; intros m Hmem Hnn Hnd Hsh; simpl.
  - eexists. split; [reflexivity|split; [exact Hsh|reflexivity]].
  - rewrite (Qle_Qltb_false f 0) by (apply (Hnn (op', s') f); left; reflexivity).
    destruct (Hmem op' s' f (or_introl eq_refl)) as [Hop Hs].
    destruct (index_of_member_op op' Hop) as (i' & Hi'g & Hi').
    destruct (index_of_member_s s' Hs) as (j' & Hj'g & Hj').
    rewrite Hi'g, Hj'g.
    destruct (matrix_set_ok m _ _ i' j' f Hsh Hi' Hj') as (m1 & -> & Hsh1 & Hm1).
    inversion Hnd as [|? ? Hk Hnd']; subst.
    destruct (IH m1) as (m' & Hrun & Hsh' & Hm'); [intros; eapply Hmem; right; eassumption
      |intros; eapply Hnn; right; eassumption|exact Hnd'|exact Hsh1|].
    exists m'. split; [exact Hrun|split; [exact Hsh'|]].
    intros i j op s Hi Hj. rewrite (Hm' i j op s Hi Hj), Hm1.
    unfold dict_get_default. simpl.
    destruct (eq_dec (op, s) (op', s')) as [Heq|Hne].
    + injection Heq as -> ->.
      apply Hoi in Hi. apply Hsj in Hj. rewrite Hi in Hi'g. rewrite Hj in Hj'g.
      injection Hi'g as ->. injection Hj'g as ->. rewrite !Nat.eqb_refl. simpl.
      rewrite dict_get_not_In by exact Hk. reflexivity.
    + destruct (andb (Nat.eqb i i') (Nat.eqb j j')) eqn:E; [|reflexivity].
      apply andb_prop in E as [Ei Ej]. apply Nat.eqb_eq in Ei, Ej. subst i' j'.
      apply Hoi in Hi'g. apply Hsj in Hj'g. exfalso. apply Hne. congruence.
Qed.
End FillMatrix.

Lemma nth_repeat_any {A} (x d : A) n i : nth i (repeat x n) d = x \/ nth i (repeat x n) d = d.
Proof.
  revert i. induction n as [|n IH]; intros [|i]; simpl; auto.
Qed.

Lemma infer_index_maps_eq fd ops ss oi sj :
  _infer_index_maps_from_frequency_data fd = Ok (ops, ss, oi, sj) ->
  ops = sort_lt string_ltb (nodup string_dec (map (fun '((op, _), _) => op) fd)) /\
  ss = sort_lt Z.ltb (nodup Z.eq_dec (map (fun '((_, s), _) => s) fd)) /\
  oi = enumerate_index ops /\ sj = enumerate_index ss.
Proof.
  destruct fd as [|x fd']; [discriminate|]. intros H. inversion H. subst.
  repeat split; reflexivity.
Qed.

Lemma infer_index_maps_ok fd ops ss oi sj :
  _infer_index_maps_from_frequency_data fd = Ok (ops, ss, oi, sj) ->
  (forall op, In op ops <-> exists s f, In ((op, s), f) fd) /\
  (forall s, In s ss <-> exists op f, In ((op, s), f) fd) /\
  (forall op i, dict_get oi op = Some i <-> nth_error ops i = Some op) /\
  (forall s j, dict_get sj s = Some j <-> nth_error ss j = Some s).
Proof.
  intros Hinf. destruct (infer_index_maps_eq _ _ _ _ _ Hinf) as (-> & -> & -> & ->).
  split; [|split; [|split]].
  - intros op. rewrite sort_nodup_In, in_map_iff. split.
    + intros ([[op' s] f] & Heq & Hin). simpl in Heq. subst. eauto.
    + intros (s & f & Hin). exists ((op, s), f). auto.
  - intros s. rewrite sort_nodup_In, in_map_iff. split.
    + intros ([[op s'] f] & Heq & Hin). simpl in Heq. subst. eauto.
    + intros (op & f & Hin). exists ((op, s), f). auto.
  - intros op i. apply enumerate_index_roundtrip, sort_nodup_NoDup.
  - intros s j. apply enumerate_index_roundtrip, sort_nodup_NoDup.
Qed.

(** [_infer_index_maps_from_frequency_data] raises [ValueError] on empty
    frequency data; otherwise it lists each card and each surgeon of the data
    once, and its two index maps are inverse to the lists: [op_to_i[op] = i]
    exactly when [operation_cards[i] = op], and likewise for surgeons. *)
Theorem infer_index_maps_roundtrip (fd : FrequencyData) :
  (fd = [] -> _infer_index_maps_from_frequency_data fd = Raise ValueError) /\
  (fd <> [] -> exists ops ss oi sj,
     _infer_index_maps_from_frequency_data fd = Ok (ops, ss, oi, sj) /\
     NoDup ops /\ NoDup ss /\
     (forall op, In op ops <-> exists s f, In ((op, s), f) fd) /\
     (forall s, In s ss <-> exists op f, In ((op, s), f) fd) /\
     (forall op i, dict_get oi op = Some i <-> nth_error ops i = Some op) /\
     (forall s j, dict_get sj s = Some j <-> nth_error ss j = Some s)).
Proof.
  split; [intros ->; reflexivity|].
  intros Hne. destruct fd as [|x fd']; [contradiction|].
  destruct (_infer_index_maps_from_frequency_data (x :: fd')) as [[[[ops ss] oi] sj]| |] eqn:E;
    [|discriminate|discriminate].
  exists ops, ss, oi, sj. split; [reflexivity|].
  destruct (infer_index_maps_ok _ _ _ _ _ E) as (H1 & H2 & H3 & H4).
  destruct (infer_index_maps_eq _ _ _ _ _ E) as (-> & -> & _ & _).
  split; [apply sort_nodup_NoDup|split; [apply sort_nodup_NoDup|auto]].
Qed.

(** After [_infer_index_maps_from_frequency_data], [_build_frequency_matrix]
    raises [ValueError] as soon as the frequency data holds a negative
    frequency (unlike [generate_schedule], which accepts one). *)
Theorem build_frequency_matrix_rejects_negative (fd : FrequencyData) ops ss oi sj :
  _infer_index_maps_from_frequency_data fd = Ok (ops, ss, oi, sj) ->
  (exists key f, In (key, f) fd /\ f < 0) ->
  _build_frequency_matrix ops ss oi sj fd = Raise ValueError.
Proof.
  intros Hinf Hneg. destruct (infer_index_maps_ok _ _ _ _ _ Hinf) as (H1 & H2 & H3 & H4).
  unfold _build_frequency_matrix. apply (fill_negative ops ss oi sj H3 H4); [|split|exact Hneg].
  - intros op s f Hin. split; [apply H1|apply H2]; eauto.
  - apply repeat_length.
  - apply Forall_forall. intros r Hr. apply repeat_spec in Hr. subst. apply repeat_length.
Qed.

(** With non-negative frequencies, [_build_frequency_matrix] returns a
    [T x S] matrix whose entry [(i, j)] is the frequency of
    [(operation_cards[i], surgeons[j])], and 0 for a pair missing from the
    data. *)
Theorem build_frequency_matrix_entries (fd : FrequencyData) ops ss oi sj :
  NoDup (map fst fd) ->
  _infer_index_maps_from_frequency_data fd = Ok (ops, ss, oi, sj) ->
  (forall key f, In (key, f) fd -> 0 <= f) ->
  exists f_ts, _build_frequency_matrix ops ss oi sj fd = Ok f_ts /\
    List.length f_ts = List.length ops /\
    Forall (fun row => List.length row = List.length ss) f_ts /\
    forall i j op s, nth_error ops i = Some op -> nth_error ss j = Some s ->
      nth j (nth i f_ts []) 0 = dict_get_default fd (op, s) 0.
Proof.
  intros Hnd Hinf Hnn. destruct (infer_index_maps_ok _ _ _ _ _ Hinf) as (H1 & H2 & H3 & H4).
  unfold _build_frequency_matrix.
  destruct (fill_ok ops ss oi sj H3 H4 fd (repeat (repeat 0 (List.length ss)) (List.length ops)))
    as (m & Hrun & [Hl Hrows] & Hm).
  - intros op s f Hin. split; [apply H1|apply H2]; eauto.
  - exact Hnn.
  - exact Hnd.
  - split; [apply repeat_length|].
    apply Forall_forall. intros r Hr. apply repeat_spec in Hr. subst. apply repeat_length.
  - exists m. split; [exact Hrun|split; [exact Hl|split; [exact Hrows|]]].
    intros i j op s Hi Hj. rewrite (Hm i j op s Hi Hj).
    destruct (nth_repeat_any (repeat 0 (List.length ss)) [] (List.length ops) i) as [E|E];
      rewrite E; [|destruct j; reflexivity].
    destruct (nth_repeat_any 0 0 (List.length ss) j) as [E'|E']; rewrite E'; reflexivity.
Qed.

Lemma build_frequency_matrix_rejects_negative_witness :
  _build_frequency_matrix ["a"; "b"]%string [0%Z; 2%Z] [("a", 0%nat); ("b", 1%nat)]%string
    [(0%Z, 0%nat); (2%Z, 1%nat)]
    [(("b", 2%Z), 1 # 2); (("a", 0%Z), -1 # 4); (("b", 0%Z), 3)]%string = Raise ValueError.
Proof.
  apply (build_frequency_matrix_rejects_negative
           [(("b", 2%Z), 1 # 2); (("a", 0%Z), -1 # 4); (("b", 0%Z), 3)]%string).
  - vm_compute. reflexivity.
  - exists ("a", 0%Z)%string, (-1 # 4). split; [right; left; reflexivity|reflexivity].
Defined.

Lemma build_frequency_matrix_entries_witness :
  exists f_ts, _build_frequency_matrix ["a"; "b"]%string [0%Z; 2%Z]
    [("a", 0%nat); ("b", 1%nat)]%string [(0%Z, 0%nat); (2%Z, 1%nat)]
    [(("b", 2%Z), 1 # 2); (("a", 0%Z), 1 # 4); (("b", 0%Z), 3)]%string = Ok f_ts /\
    List.length f_ts = 2%nat /\ Forall (fun row => List.length row = 2%nat) f_ts /\
    forall i j op s, nth_error ["a"; "b"]%string i = Some op -> nth_error [0%Z; 2%Z] j = Some s ->
      nth j (nth i f_ts []) 0 =
      dict_get_default [(("b", 2%Z), 1 # 2); (("a", 0%Z), 1 # 4); (("b", 0%Z), 3)]%string (op, s) 0.
Proof.
  apply (build_frequency_matrix_entries
           [(("b", 2%Z), 1 # 2); (("a", 0%Z), 1 # 4); (("b", 0%Z), 3)]%string).
  - simpl. repeat constructor; simpl; intuition discriminate.
  - vm_compute. reflexivity.
  - intros key f [H|[H|[H|[]]]]; injection H as _ <-; unfold Qle; simpl; lia.
Defined.

Lemma infer_index_maps_roundtrip_witness :
  exists ops ss oi sj,
    _infer_index_maps_from_frequency_data [(("b", 2%Z), 1 # 2); (("a", 0%Z), 1 # 4)]%string
      = Ok (ops, ss, oi, sj) /\ NoDup ops /\ NoDup ss /\
    (forall op, In op ops <-> exists s f,
       In ((op, s), f) [(("b", 2%Z), 1 # 2); (("a", 0%Z), 1 # 4)]%string) /\
    (forall s, In s ss <-> exists op f,
       In ((op, s), f) [(("b", 2%Z), 1 # 2); (("a", 0%Z), 1 # 4)]%string) /\
    (forall op i, dict_get oi op = Some i <-> nth_error ops i = Some op) /\
    (forall s j, dict_get sj s = Some j <-> nth_error ss j = Some s).
Proof.
  apply (proj2 (infer_index_maps_roundtrip [(("b", 2%Z), 1 # 2); (("a", 0%Z), 1 # 4)]%string)).
  discriminate.
Defined.
